(** * docker-app: the Flask service (docker-compose-python/app.py) and the
      Django demo (python/demo/settings.py, python/demo/urls.py)

    The handlers are short effectful programs: they read the process
    environment and talk to a PostgreSQL server and a Redis server through
    client libraries.  They are embedded as computations in a small
    state-and-exception monad over a [World] holding everything outside the
    handler: the environment, the host name, what the interpreter's [int]
    gives on each text, how each call to a server ends, the contents of the
    Redis store, and the log of requests sent so far. *)

From Stdlib Require Import ZArith Ascii String.
From stdpp Require Import gmap strings list fin_maps.

Local Open Scope string_scope.
Local Open Scope Z_scope.

(** ** Python values and exceptions *)

(** The values the handlers put into keyword arguments and JSON bodies. *)
Inductive pyval : Type :=
| PyStr (s : string)
| PyInt (n : Z)
| PyBool (b : bool).

(** An exception object: its class and what [str(e)] gives.  Every
    exception of the model is an instance of [Exception]. *)
Record exn : Type := Exn { exn_class : string; exn_str : string }.

(** A Python dict in insertion order, as [jsonify] and [JsonResponse]
    receive it. *)
Definition dict : Type := list (string * pyval).

Fixpoint dict_get (k : string) (d : dict) : option pyval :=
  match d with
  | [] => None
  | (k', v) :: d' => if String.eqb k k' then Some v else dict_get k d'
  end.

Definition dict_keys (d : dict) : list string := map fst d.

(** ** The world outside the handlers *)

(** How the calls to a server's client end: the request is served, the
    client raises (refused connection, failed authentication, a time limit
    that ran out, ...), or the call never comes back. *)
Inductive link : Type :=
| Up
| Down (e : exn)
| Silent.

(** A value stored under a Redis key: an integer, a text that is not an
    integer, or a value of another type (list, hash, set, ...). *)
Inductive redis_value : Type :=
| RInt (n : Z)
| RText
| RContainer.

(** The commands the handlers send. *)
Inductive redis_cmd : Type :=
| PING
| INCR (key : string).

(** Requests that leave the process.  [EvDjangoConnect] stands for all that
    Django sends to open and set up the connection its settings describe. *)
Inductive event : Type :=
| EvPgConnect (kw : gmap string pyval)
| EvPgClose
| EvDjangoConnect (settings : gmap string pyval)
| EvPgExecute (sql : string)
| EvRedis (kw : gmap string pyval) (c : redis_cmd).

(** [int_of_str] is what the built-in [int] does with a text: the integer,
    or the exception it raises.  The rules of the conversion (white space,
    signs, digits of other scripts, length limits, the wording of the
    message) belong to the interpreter and are left open: the properties
    hold whatever they are. *)
Record World : Type := mkWorld {
  environ : gmap string string;
  hostname : string;
  int_of_str : string -> exn + Z;
  pg_link : link;
  pg_close_error : option exn;
  pg_query_error : option exn;
  redis_link : link;
  redis_data : gmap string redis_value;
  trace : list event
}.

Definition log (ev : event) (w : World) : World :=
  mkWorld (environ w) (hostname w) (int_of_str w) (pg_link w)
          (pg_close_error w) (pg_query_error w) (redis_link w) (redis_data w)
          (trace w ++ [ev]).

Definition set_redis_data (d : gmap string redis_value) (w : World) : World :=
  mkWorld (environ w) (hostname w) (int_of_str w) (pg_link w)
          (pg_close_error w) (pg_query_error w) (redis_link w) d (trace w).

(** ** The monad of handlers *)

(** A computation returns, raises, or stays blocked in a call that never
    comes back; each outcome carries the world as it was left. *)
Inductive outcome (A : Type) : Type :=
| Return (a : A) (w : World)
| Raise (e : exn) (w : World)
| Blocked (w : World).
Arguments Return {A} a w.
Arguments Raise {A} e w.
Arguments Blocked {A} w.

Definition M (A : Type) : Type := World -> outcome A.

Definition ret {A} (a : A) : M A := fun w => Return a w.

Definition raise {A} (e : exn) : M A := fun w => Raise e w.

Definition bind {A B} (m : M A) (k : A -> M B) : M B :=
  fun w =>
    match m w with
    | Return a w' => k a w'
    | Raise e w' => Raise e w'
    | Blocked w' => Blocked w'
    end.

(** [try: m  except Exception as e: h e] *)
Definition try_except {A} (m : M A) (h : exn -> M A) : M A :=
  fun w =>
    match m w with
    | Return a w' => Return a w'
    | Raise e w' => h e w'
    | Blocked w' => Blocked w'
    end.

Notation "'let*' x ':=' m 'in' k" := (bind m (fun x => k))
  (at level 10, x pattern, m at level 100, k at level 200).

Definition final_world {A} (o : outcome A) : World :=
  match o with
  | Return _ w | Raise _ w | Blocked w => w
  end.

(** ** The standard library calls the handlers make *)

(** [os.getenv(key, default)] *)
Definition os_getenv (key dflt : string) : M string :=
  fun w => Return (default dflt (environ w !! key)) w.

(** [socket.gethostname()] *)
Definition socket_gethostname : M string :=
  fun w => Return (hostname w) w.

(** [int(s)] *)
Definition py_int (s : string) : M Z :=
  fun w =>
    match int_of_str w s with
    | inr n => Return n w
    | inl e => Raise e w
    end.

(** [s.split(sep)] for a separator of one character: the pieces between
    the separators, empty pieces included. *)
Fixpoint str_split (sep : ascii) (s : string) : list string :=
  match s with
  | EmptyString => [EmptyString]
  | String c s' =>
      if Ascii.eqb c sep then EmptyString :: str_split sep s'
      else match str_split sep s' with
           | piece :: pieces => String c piece :: pieces
           | [] => [String c EmptyString]
           end
  end.

(** [sep.join(pieces)] *)
Definition str_join (sep : ascii) (pieces : list string) : string :=
  String.concat (String sep EmptyString) pieces.

Fixpoint str_count (c : ascii) (s : string) : nat :=
  match s with
  | EmptyString => 0
  | String c' s' => ((if Ascii.eqb c' c then 1 else 0) + str_count c s')%nat
  end.

(** ** psycopg2 *)

Record pg_connection : Type := PgConnection { pg_kwargs : gmap string pyval }.

(** [psycopg2.connect] with keyword arguments [kw]: how the call ends is
    the world's. *)
Definition psycopg2_connect (kw : gmap string pyval) : M pg_connection :=
  fun w =>
    let w' := log (EvPgConnect kw) w in
    match pg_link w with
    | Up => Return (PgConnection kw) w'
    | Down e => Raise e w'
    | Silent => Blocked w'
    end.

(** [conn.close()] *)
Definition pg_close (conn : pg_connection) : M unit :=
  fun w =>
    let w' := log EvPgClose w in
    match pg_close_error w with
    | None => Return tt w'
    | Some e => Raise e w'
    end.

(** [cursor.execute(sql)] on an open connection *)
Definition pg_execute (sql : string) : M unit :=
  fun w =>
    let w' := log (EvPgExecute sql) w in
    match pg_query_error w with
    | None => Return tt w'
    | Some e => Raise e w'
    end.

(** ** redis-py and the Redis server *)

Record redis_client : Type := RedisClient { redis_kwargs : gmap string pyval }.

(** [redis.Redis] with keyword arguments [kw] only records its arguments;
    the connection is opened by the first command. *)
Definition redis_Redis (kw : gmap string pyval) : M redis_client :=
  ret (RedisClient kw).

Definition int64_max : Z := 2 ^ 63 - 1.

Definition redis_not_integer : exn :=
  Exn "ResponseError" "value is not an integer or out of range".

Definition redis_wrong_type : exn :=
  Exn "ResponseError"
      "WRONGTYPE Operation against a key holding the wrong kind of value".

Definition redis_overflow : exn :=
  Exn "ResponseError" "increment or decrement would overflow".

(** What the server does with one command: the reply (or the error reply)
    and the store afterwards.  Each command is carried out as one step. *)
Definition redis_serve (c : redis_cmd) (d : gmap string redis_value)
  : (exn + option Z) * gmap string redis_value :=
  match c with
  | PING => (inr None, d)
  | INCR key =>
      match d !! key with
      | None => (inr (Some 1), <[key := RInt 1]> d)
      | Some (RInt n) =>
          if n <? int64_max
          then (inr (Some (n + 1)), <[key := RInt (n + 1)]> d)
          else (inl redis_overflow, d)
      | Some RText => (inl redis_not_integer, d)
      | Some RContainer => (inl redis_wrong_type, d)
      end
  end.

(** One round trip of the client: how the call ends is the world's. *)
Definition redis_execute (r : redis_client) (c : redis_cmd) : M (option Z) :=
  fun w =>
    let w' := log (EvRedis (redis_kwargs r) c) w in
    match redis_link w with
    | Up =>
        match redis_serve c (redis_data w) with
        | (inr reply, d') => Return reply (set_redis_data d' w')
        | (inl e, d') => Raise e (set_redis_data d' w')
        end
    | Down e => Raise e w'
    | Silent => Blocked w'
    end.

(** [r.ping()] *)
Definition redis_ping (r : redis_client) : M bool :=
  let* _ := redis_execute r PING in ret true.

(** [r.incr(name)] *)
Definition redis_incr (r : redis_client) (name : string) : M Z :=
  let* reply := redis_execute r (INCR name) in ret (default 0 reply).

(** ** Django's database connection *)

(** [connection.cursor()]: Django opens, on first use, the connection that
    [settings] describes and sets it up; how that ends is the world's. *)
Definition django_connection_cursor (settings : gmap string pyval) : M unit :=
  fun w =>
    let w' := log (EvDjangoConnect settings) w in
    match pg_link w with
    | Up => Return tt w'
    | Down e => Raise e w'
    | Silent => Blocked w'
    end.

(** ** HTTP responses *)

Inductive body : Type :=
| Json (d : dict)
| InternalServerError (e : exn)
| NotFound.

Record response : Type := Response { status_code : Z; content : body }.

(** [jsonify(d)] and [JsonResponse(d)]: status 200 and the dict as JSON. *)
Definition jsonify (d : dict) : M response := ret (Response 200 (Json d)).
Definition JsonResponse (d : dict) : M response := ret (Response 200 (Json d)).

(** A Flask view that raises is answered with status 500; the application
    registers no error handler. *)
Definition handle_exception (view : M response) : M response :=
  try_except view (fun e => ret (Response 500 (InternalServerError e))).

Fixpoint route (path : string) (url_map : list (string * M response))
  : M response :=
  match url_map with
  | [] => ret (Response 404 NotFound)
  | (rule, view) :: rest =>
      if String.eqb path rule then handle_exception view else route path rest
  end.

(** ** docker-compose-python/app.py *)

Module App.

Definition get_db_connection : M pg_connection :=
  let* host := os_getenv "DB_HOST" "postgres" in
  let* database := os_getenv "DB_NAME" "mydb" in
  let* user := os_getenv "DB_USER" "admin" in
  let* password := os_getenv "DB_PASSWORD" "secret123" in
  let* port := os_getenv "DB_PORT" "5432" in
  psycopg2_connect
    (list_to_map [("host", PyStr host); ("database", PyStr database);
                  ("user", PyStr user); ("password", PyStr password);
                  ("port", PyStr port)]).

Definition get_redis : M redis_client :=
  let* host := os_getenv "REDIS_HOST" "redis" in
  let* port_s := os_getenv "REDIS_PORT" "6379" in
  let* port := py_int port_s in
  redis_Redis
    (list_to_map [("host", PyStr host); ("port", PyInt port);
                  ("decode_responses", PyBool true)]).

Definition home : M response :=
  let* h := socket_gethostname in
  let* env := os_getenv "APP_ENV" "development" in
  jsonify [("message", PyStr "Hello from Docker Compose!");
           ("hostname", PyStr h);
           ("environment", PyStr env)].

(** The first [try] statement of [health]: what runs under [try], and the
    statement with its handler. *)
Definition db_check : M string :=
  let* conn := get_db_connection in
  let* _ := pg_close conn in
  ret "connected".

Definition db_probe : M string :=
  try_except db_check (fun e => ret ("error: " ++ exn_str e)).

(** The second [try] statement of [health]. *)
Definition redis_check : M string :=
  let* r := get_redis in
  let* _ := redis_ping r in
  ret "connected".

Definition redis_probe : M string :=
  try_except redis_check (fun e => ret ("error: " ++ exn_str e)).

Definition health : M response :=
  let* db_status := db_probe in
  let* redis_status := redis_probe in
  jsonify [("status", PyStr "healthy");
           ("database", PyStr db_status);
           ("redis", PyStr redis_status)].

Definition counter : M response :=
  let* r := get_redis in
  let* count := redis_incr r "hits" in
  jsonify [("visits", PyInt count)].

Definition url_map : list (string * M response) :=
  [("/", home); ("/health", health); ("/counter", counter)].

(** A GET request to the Flask application. *)
Definition GET (path : string) : M response := route path url_map.

End App.

(** ** python/demo/settings.py *)

Module Settings.

(** [DATABASES['default']], filled from the environment when the settings
    module is loaded. *)
Definition DATABASES_default : M (gmap string pyval) :=
  let* name := os_getenv "DB_DATABASE" "django_db" in
  let* user := os_getenv "DB_USER" "postgres" in
  let* password := os_getenv "DB_PASSWORD" "postgres" in
  let* host := os_getenv "HOST" "localhost" in
  let* port := os_getenv "DB_PORT" "5432" in
  ret (list_to_map
         [("ENGINE", PyStr "django.db.backends.postgresql");
          ("NAME", PyStr name); ("USER", PyStr user);
          ("PASSWORD", PyStr password); ("HOST", PyStr host);
          ("PORT", PyStr port)]).

(** [ALLOWED_HOSTS] *)
Definition ALLOWED_HOSTS : M (list string) :=
  let* hosts := os_getenv "DJANGO_ALLOWED_HOSTS" "localhost" in
  ret (str_split "," hosts).

End Settings.

(** ** python/demo/urls.py: the views *)

Module Urls.

Record HttpRequest : Type := Request { method : string; path : string }.

(** [connection.cursor()] on the connection of the settings. *)
Definition connection_cursor : M unit :=
  let* db := Settings.DATABASES_default in
  django_connection_cursor db.

Definition home (request : HttpRequest) : M response :=
  let db_status := "connected" in
  let* db_status :=
    try_except
      (let* cursor := connection_cursor in
       let* _ := pg_execute "SELECT 1" in
       ret db_status)
      (fun e => ret ("error: " ++ exn_str e)) in
  let* h := socket_gethostname in
  let* env := os_getenv "APP_ENV" "development" in
  JsonResponse [("message", PyStr "Hello from Django!");
                ("hostname", PyStr h);
                ("environment", PyStr env);
                ("database", PyStr db_status)].

Definition health (request : HttpRequest) : M response :=
  JsonResponse [("status", PyStr "healthy")].

End Urls.

(** ** Vocabulary of the properties *)

(** *** Worlds used in examples *)

Definition is_digit (c : ascii) : bool :=
  let n := nat_of_ascii c in ((48 <=? n) && (n <=? 57))%nat.

Fixpoint decimal_value (acc : Z) (s : string) : option Z :=
  match s with
  | EmptyString => Some acc
  | String c s' =>
      if is_digit c
      then decimal_value (10 * acc + (Z.of_nat (nat_of_ascii c) - 48)) s'
      else None
  end.

Definition invalid_literal (s : string) : exn :=
  Exn "ValueError" ("invalid literal for int() with base 10: '" ++ s ++ "'").

(** The conversion of the example worlds.  It is [int] on the port texts
    these worlds hold and on every text of one to eighteen ASCII digits; on
    other texts it raises, where [int] may accept.  It serves the examples
    only: the properties are stated for every conversion. *)
Definition example_int (s : string) : exn + Z :=
  if (1 <=? String.length s)%nat && (String.length s <=? 18)%nat
  then match decimal_value 0 s with
       | Some n => inr n
       | None => inl (invalid_literal s)
       end
  else inl (invalid_literal s).

Definition ConnectionRefused : exn :=
  Exn "ConnectionError"
      "Error 111 connecting to redis:6379. Connection refused.".

Definition fresh_world : World :=
  mkWorld ∅ "web-1" example_int Up None None Up ∅ [].

Definition cache_down_world : World :=
  mkWorld ∅ "web-1" example_int Up None None (Down ConnectionRefused) ∅ [].

Definition db_silent_world : World :=
  mkWorld ∅ "web-1" example_int Silent None None Up ∅ [].

Definition cache_silent_world : World :=
  mkWorld ∅ "web-1" example_int Up None None Silent ∅ [].

Definition db_nameless_error_world : World :=
  mkWorld ∅ "web-1" example_int (Down (Exn "Exception" "")) None None Up ∅ [].

Definition malformed_port_world : World :=
  mkWorld {[ "REDIS_PORT" := "63 79" ]} "web-1" example_int
          Up None None Up ∅ [].

Definition shared_vars_world : World :=
  mkWorld (list_to_map [("DB_USER", "svc"); ("DB_PASSWORD", "pw");
                        ("DB_PORT", "6543")])
          "web-1" example_int Up None None Up ∅ [].

(** *** Probes and reports *)

Definition is_silent (l : link) : bool :=
  match l with Silent => true | _ => false end.

(** The calls to both servers come back, one way or the other. *)
Definition responsive (w : World) : bool :=
  negb (is_silent (pg_link w)) && negb (is_silent (redis_link w)).

Definition db_kwargs (w : World) : gmap string pyval :=
  list_to_map
    [("host", PyStr (default "postgres" (environ w !! "DB_HOST")));
     ("database", PyStr (default "mydb" (environ w !! "DB_NAME")));
     ("user", PyStr (default "admin" (environ w !! "DB_USER")));
     ("password", PyStr (default "secret123" (environ w !! "DB_PASSWORD")));
     ("port", PyStr (default "5432" (environ w !! "DB_PORT")))].

Definition redis_port (w : World) : string :=
  default "6379" (environ w !! "REDIS_PORT").

Definition cache_kwargs (w : World) (port : Z) : gmap string pyval :=
  list_to_map
    [("host", PyStr (default "redis" (environ w !! "REDIS_HOST")));
     ("port", PyInt port);
     ("decode_responses", PyBool true)].

(** The exception behind a failed database check, if it fails. *)
Definition db_failure (w : World) : option exn :=
  match pg_link w with
  | Up => pg_close_error w
  | Down e => Some e
  | Silent => None
  end.

(** The exception behind a failed cache check, if it fails: the one [int]
    raises on the port, or else the one the client raises. *)
Definition redis_failure (w : World) : option exn :=
  match int_of_str w (redis_port w) with
  | inl e => Some e
  | inr _ =>
      match redis_link w with
      | Down e => Some e
      | _ => None
      end
  end.

(** The text a probe reports for a check that passed or failed with [e]. *)
Definition status_text (failure : option exn) : string :=
  match failure with
  | None => "connected"
  | Some e => "error: " ++ exn_str e
  end.

(** The per-dependency entries of a health report, in the order of the
    body. *)
Definition dependency_results (d : dict) : dict :=
  filter (fun kv => negb (String.eqb (fst kv) "status")) d.

Definition is_connected (v : pyval) : bool :=
  match v with
  | PyStr s => String.eqb s "connected"
  | _ => false
  end.

Definition all_reachable (d : dict) : bool :=
  forallb (fun kv => is_connected (snd kv)) (dependency_results d).

(** The aggregation rule as the specification words it: [healthy] when
    every dependency is reachable, [degraded] otherwise. *)
Definition spec_overall_status (d : dict) : string :=
  if all_reachable d then "healthy" else "degraded".

(** Key order of the serialised body when the JSON encoder sorts keys. *)
Fixpoint insert_by_key (kv : string * pyval) (d : dict) : dict :=
  match d with
  | [] => [kv]
  | kv' :: d' =>
      if String.leb (fst kv) (fst kv') then kv :: d
      else kv' :: insert_by_key kv d'
  end.

Definition sort_keys (d : dict) : dict := foldr insert_by_key [] d.

Definition is_pg_event (ev : event) : bool :=
  match ev with EvRedis _ _ => false | _ => true end.

Definition is_redis_event (ev : event) : bool :=
  match ev with EvRedis _ _ => true | _ => false end.

(** The time limit the code gave a request to a server, if any. *)
Definition timeout_of (ev : event) : option pyval :=
  match ev with
  | EvPgConnect kw => kw !! "connect_timeout"
  | EvRedis kw _ =>
      match kw !! "socket_timeout" with
      | Some t => Some t
      | None => kw !! "socket_connect_timeout"
      end
  | _ => None
  end.

(** The body of the health report for given probe texts. *)
Definition health_body (db_status redis_status : string) : dict :=
  [("status", PyStr "healthy");
   ("database", PyStr db_status);
   ("redis", PyStr redis_status)].

(** The world after further requests have been sent. *)
Definition extend (evs : list event) (w : World) : World :=
  mkWorld (environ w) (hostname w) (int_of_str w) (pg_link w)
          (pg_close_error w) (pg_query_error w) (redis_link w) (redis_data w)
          (trace w ++ evs).

(** The requests each probe of [health] sends. *)
Definition db_events (w : World) : list event :=
  match pg_link w with
  | Up => [EvPgConnect (db_kwargs w); EvPgClose]
  | _ => [EvPgConnect (db_kwargs w)]
  end.

Definition redis_events (w : World) : list event :=
  match int_of_str w (redis_port w) with
  | inr p => [EvRedis (cache_kwargs w p) PING]
  | inl _ => []
  end.

(** The cache probe waits for ever: [int] accepts the port and the call to
    the cache never comes back. *)
Definition redis_hangs (w : World) : bool :=
  match int_of_str w (redis_port w) with
  | inr _ => is_silent (redis_link w)
  | inl _ => false
  end.

(** A probe text [text] reports the outcome [failure] of a check: the
    text of a reachable dependency, or the exception's own message behind
    [error: ]. *)
Definition reports (failure : option exn) (text : string) : Prop :=
  match failure with
  | None => text = "connected"
  | Some e => text = "error: " ++ exn_str e ∧ text ≠ "connected"
  end.

(** The value the store holds for the visit counter: a missing key counts
    as 0, a value that is not an integer has no count. *)
Definition counter_value (d : gmap string redis_value) : option Z :=
  match d !! "hits" with
  | None => Some 0
  | Some (RInt n) => Some n
  | Some _ => None
  end.

Definition visits (n : Z) : response :=
  Response 200 (Json [("visits", PyInt n)]).

Definition incr_hits (w : World) (p : Z) : event :=
  EvRedis (cache_kwargs w p) (INCR "hits").

Definition django_settings (w : World) : gmap string pyval :=
  list_to_map
    [("ENGINE", PyStr "django.db.backends.postgresql");
     ("NAME", PyStr (default "django_db" (environ w !! "DB_DATABASE")));
     ("USER", PyStr (default "postgres" (environ w !! "DB_USER")));
     ("PASSWORD", PyStr (default "postgres" (environ w !! "DB_PASSWORD")));
     ("HOST", PyStr (default "localhost" (environ w !! "HOST")));
     ("PORT", PyStr (default "5432" (environ w !! "DB_PORT")))].

Definition django_home_body (w : World) (db_status : string) : dict :=
  [("message", PyStr "Hello from Django!");
   ("hostname", PyStr (hostname w));
   ("environment", PyStr (default "development" (environ w !! "APP_ENV")));
   ("database", PyStr db_status)].

Definition flask_home_body (w : World) : dict :=
  [("message", PyStr "Hello from Docker Compose!");
   ("hostname", PyStr (hostname w));
   ("environment", PyStr (default "development" (environ w !! "APP_ENV")))].

(** The world after a successful increment from count [n]. *)
Definition after_incr (w : World) (p n : Z) : World :=
  set_redis_data (<["hits" := RInt (n + 1)]> (redis_data w))
                 (log (incr_hits w p) w).

(** *** Concurrent callers of the counter *)

(** Several requests to /counter are in flight at once.  The handler runs in
    two steps, [get_redis] and then the increment with the building of the
    response; the steps of different callers interleave in any order, and
    the store carries out each command it receives as one step.  A caller
    ends with a response, an exception, or blocked for ever. *)
Inductive result : Type :=
| Ok (r : response)
| Failed (e : exn)
| Hung.

Inductive phase : Type :=
| Start
| HasClient (r : redis_client)
| Finished (o : result).

(** [counter] after [get_redis] has returned [r]. *)
Definition counter_rest (r : redis_client) : M response :=
  let* count := redis_incr r "hits" in
  jsonify [("visits", PyInt count)].

Definition settle {A} (o : outcome A) (k : A -> phase) : phase * World :=
  match o with
  | Return a w => (k a, w)
  | Raise e w => (Finished (Failed e), w)
  | Blocked w => (Finished Hung, w)
  end.

Definition advance (ph : phase) (w : World) : option (phase * World) :=
  match ph with
  | Start => Some (settle (App.get_redis w) HasClient)
  | HasClient r =>
      Some (settle (counter_rest r w) (fun resp => Finished (Ok resp)))
  | Finished _ => None
  end.

Record system : Type := System { shared : World; callers : list phase }.

Inductive step : system -> system -> Prop :=
| step_caller (s : system) (i : nat) (ph ph' : phase) (w' : World) :
    callers s !! i = Some ph ->
    advance ph (shared s) = Some (ph', w') ->
    step s (System w' (<[i := ph']> (callers s))).

Definition is_finished (ph : phase) : bool :=
  match ph with Finished _ => true | _ => false end.

Definition finished_mark (ph : phase) : option unit :=
  if is_finished ph then Some tt else None.

(** The count a caller was answered with. *)
Definition value_of (ph : phase) : option Z :=
  match ph with
  | Finished (Ok r) =>
      match content r with
      | Json d => match dict_get "visits" d with
                  | Some (PyInt n) => Some n
                  | _ => None
                  end
      | _ => None
      end
  | _ => None
  end.

Definition returned (l : list phase) : list Z := omap value_of l.

Definition is_incr_hits (ev : event) : bool :=
  match ev with
  | EvRedis _ (INCR key) => String.eqb key "hits"
  | _ => false
  end.

(** Steps a caller still has to take. *)
Definition work (ph : phase) : nat :=
  match ph with
  | Start => 2
  | HasClient _ => 1
  | Finished _ => 0
  end.

Definition total_work (l : list phase) : nat := sum_list (work <$> l).

(** What holds of every state N callers can reach from the world [w0]. *)
Record counts_inv (w0 : World) (N : nat) (s : system) : Prop := {
  cinv_len : length (callers s) = N;
  cinv_some : ∀ v0, counter_value (redis_data w0) = Some v0 →
      counter_value (redis_data (shared s))
      = Some (v0 + Z.of_nat (length (returned (callers s))))
      ∧ returned (callers s)
        ≡ₚ seqZ (v0 + 1) (Z.of_nat (length (returned (callers s))));
  cinv_none : counter_value (redis_data w0) = None →
      counter_value (redis_data (shared s)) = None
      ∧ returned (callers s) = [];
  cinv_trace : ∃ evs : list event,
      trace (shared s) = (trace w0 ++ evs)%list
      ∧ forallb is_incr_hits evs = true
      ∧ (length (returned (callers s)) ≤ length evs)%nat
      ∧ (length evs ≤ length (omap finished_mark (callers s)))%nat
}.

(** What holds besides when [int] accepts the port and the store is up. *)
Record live_inv (w0 : World) (s : system) : Prop := {
  linv_env : environ (shared s) = environ w0;
  linv_int : int_of_str (shared s) = int_of_str w0;
  linv_link : redis_link (shared s) = Up;
  linv_phases :
    Forall (fun ph => is_finished ph = true → is_Some (value_of ph))
           (callers s)
}.

(** *** Sequences of requests and further vocabulary *)

(** What a computation answered, when it came back without raising. *)
Definition answer {A} (o : outcome A) : option A :=
  match o with
  | Return a _ => Some a
  | _ => None
  end.

(** [n] GET /counter requests one after the other; the run stops at a
    request that never comes back. *)
Fixpoint counter_calls (n : nat) (w : World) : list response * World :=
  match n with
  | O => ([], w)
  | S n' =>
      match App.GET "/counter" w with
      | Return r w' =>
          let (rs, w'') := counter_calls n' w' in (r :: rs, w'')
      | Raise _ w' | Blocked w' => ([], w')
      end
  end.

(** The exception behind a failed database check of the Django home view. *)
Definition django_db_failure (w : World) : option exn :=
  match pg_link w with
  | Up => pg_query_error w
  | Down e => Some e
  | Silent => None
  end.

(** The requests the Django home view sends. *)
Definition django_events (w : World) : list event :=
  match pg_link w with
  | Up => [EvDjangoConnect (django_settings w); EvPgExecute "SELECT 1"]
  | _ => [EvDjangoConnect (django_settings w)]
  end.

(** The world with another environment. *)
Definition with_environ (env : gmap string string) (w : World) : World :=
  mkWorld env (hostname w) (int_of_str w) (pg_link w) (pg_close_error w)
          (pg_query_error w) (redis_link w) (redis_data w) (trace w).

Definition is_ping (ev : event) : bool :=
  match ev with
  | EvRedis _ PING => true
  | _ => false
  end.

(** ** Properties *)

Lemma get_db_connection_eq (w : World) :
  App.get_db_connection w = psycopg2_connect (db_kwargs w) w.
Proof. reflexivity. Qed.

Lemma get_redis_eq (w : World) :
  App.get_redis w =
  match int_of_str w (redis_port w) with
  | inr p => Return (RedisClient (cache_kwargs w p)) w
  | inl e => Raise e w
  end.
Proof.
  unfold App.get_redis, bind, os_getenv, py_int, redis_port.
  destruct (int_of_str w _); reflexivity.
Qed.

Lemma db_kwargs_no_timeout (w : World) :
  db_kwargs w !! "connect_timeout" = None.
Proof. reflexivity. Qed.

Lemma cache_kwargs_no_timeout (w : World) (p : Z) :
  cache_kwargs w p !! "socket_timeout" = None
  ∧ cache_kwargs w p !! "socket_connect_timeout" = None.
Proof. split; reflexivity. Qed.

Lemma db_probe_eq (w : World) :
  App.db_probe w =
  match pg_link w with
  | Up => Return (status_text (pg_close_error w))
                 (log EvPgClose (log (EvPgConnect (db_kwargs w)) w))
  | Down e => Return (status_text (Some e)) (log (EvPgConnect (db_kwargs w)) w)
  | Silent => Blocked (log (EvPgConnect (db_kwargs w)) w)
  end.
Proof.
  unfold App.db_probe, App.db_check, try_except, bind.
  rewrite get_db_connection_eq. unfold psycopg2_connect.
  destruct (pg_link w); try reflexivity.
  unfold pg_close. cbn [pg_close_error log].
  destruct (pg_close_error w); reflexivity.
Qed.

Lemma redis_probe_eq (w : World) :
  App.redis_probe w =
  match int_of_str w (redis_port w) with
  | inl e => Return (status_text (Some e)) w
  | inr p =>
      let w' := log (EvRedis (cache_kwargs w p) PING) w in
      match redis_link w with
      | Up => Return "connected" w'
      | Down e => Return (status_text (Some e)) w'
      | Silent => Blocked w'
      end
  end.
Proof.
  unfold App.redis_probe, App.redis_check, try_except, bind.
  rewrite get_redis_eq.
  destruct (int_of_str w (redis_port w)) as [e|p]; [reflexivity|].
  unfold redis_ping, bind, redis_execute. cbn [redis_kwargs].
  destruct (redis_link w); reflexivity.
Qed.

Lemma log_extend (ev : event) (w : World) : log ev w = extend [ev] w.
Proof. reflexivity. Qed.

Lemma extend_extend (evs evs' : list event) (w : World) :
  extend evs' (extend evs w) = extend (evs ++ evs') w.
Proof. unfold extend; cbn. by rewrite app_assoc. Qed.

Lemma extend_nil (w : World) : extend [] w = w.
Proof. destruct w; unfold extend; cbn. by rewrite app_nil_r. Qed.

Lemma db_probe_extend (w : World) :
  App.db_probe w =
  if is_silent (pg_link w) then Blocked (extend (db_events w) w)
  else Return (status_text (db_failure w)) (extend (db_events w) w).
Proof.
  rewrite db_probe_eq. unfold db_failure, db_events.
  destruct (pg_link w); cbn [is_silent];
    rewrite ?log_extend, ?extend_extend; reflexivity.
Qed.

Lemma redis_probe_extend (w : World) :
  App.redis_probe w =
  if redis_hangs w then Blocked (extend (redis_events w) w)
  else Return (status_text (redis_failure w)) (extend (redis_events w) w).
Proof.
  rewrite redis_probe_eq. unfold redis_failure, redis_events, redis_hangs.
  destruct (int_of_str w (redis_port w)) as [e|p].
  - by rewrite extend_nil.
  - cbv zeta. destruct (redis_link w); cbn [is_silent];
      rewrite ?log_extend; reflexivity.
Qed.

Lemma redis_failure_extend (evs : list event) (w : World) :
  redis_failure (extend evs w) = redis_failure w.
Proof. reflexivity. Qed.

Lemma redis_events_extend (evs : list event) (w : World) :
  redis_events (extend evs w) = redis_events w.
Proof. reflexivity. Qed.

Lemma redis_hangs_extend (evs : list event) (w : World) :
  redis_hangs (extend evs w) = redis_hangs w.
Proof. reflexivity. Qed.

Lemma health_eq (w : World) :
  App.health w =
  if is_silent (pg_link w) then Blocked (extend (db_events w) w)
  else if redis_hangs w
       then Blocked (extend (db_events w ++ redis_events w) w)
       else Return
              (Response 200
                 (Json (health_body (status_text (db_failure w))
                                    (status_text (redis_failure w)))))
              (extend (db_events w ++ redis_events w) w).
Proof.
  unfold App.health, bind. rewrite db_probe_extend.
  destruct (is_silent (pg_link w)); [reflexivity|].
  rewrite redis_probe_extend, redis_hangs_extend, redis_events_extend,
    redis_failure_extend, extend_extend.
  destruct (redis_hangs w); reflexivity.
Qed.

Lemma responsive_spec (w : World) :
  responsive w = true →
  is_silent (pg_link w) = false ∧ redis_hangs w = false.
Proof.
  unfold responsive, redis_hangs. intros [H1 H2]%andb_true_iff.
  apply negb_true_iff in H1, H2. split; [done|].
  by destruct (int_of_str w _).
Qed.

Lemma health_returns (w : World) :
  is_silent (pg_link w) = false → redis_hangs w = false →
  App.health w =
  Return (Response 200
            (Json (health_body (status_text (db_failure w))
                               (status_text (redis_failure w)))))
         (extend (db_events w ++ redis_events w) w).
Proof. intros H1 H2. by rewrite health_eq, H1, H2. Qed.

Lemma health_responsive (w : World) :
  responsive w = true →
  App.health w =
  Return (Response 200
            (Json (health_body (status_text (db_failure w))
                               (status_text (redis_failure w)))))
         (extend (db_events w ++ redis_events w) w).
Proof. intros [H1 H2]%responsive_spec. by apply health_returns. Qed.

Lemma GET_health (w : World) :
  App.GET "/health" w = handle_exception App.health w.
Proof. reflexivity. Qed.

Lemma GET_health_eq (w : World) : App.GET "/health" w = App.health w.
Proof.
  rewrite GET_health. unfold handle_exception, try_except.
  rewrite health_eq. destruct (is_silent _); [reflexivity|].
  destruct (redis_hangs w); reflexivity.
Qed.

Lemma handle_exception_return (view : M response) (w : World) r w' :
  view w = Return r w' → handle_exception view w = Return r w'.
Proof. unfold handle_exception, try_except. by intros ->. Qed.

Lemma db_events_pg (w : World) : forallb is_pg_event (db_events w) = true.
Proof. unfold db_events. by destruct (pg_link w). Qed.

Lemma redis_events_redis (w : World) :
  forallb is_redis_event (redis_events w) = true.
Proof. unfold redis_events. by destruct (int_of_str w _). Qed.

Lemma db_events_no_timeout (w : World) :
  Forall (fun ev => timeout_of ev = None) (db_events w).
Proof.
  unfold db_events.
  destruct (pg_link w); repeat constructor; apply db_kwargs_no_timeout.
Qed.

Lemma redis_events_no_timeout (w : World) :
  Forall (fun ev => timeout_of ev = None) (redis_events w).
Proof.
  unfold redis_events. destruct (int_of_str w _) as [e|p]; repeat constructor.
Qed.

Lemma status_text_reports (failure : option exn) :
  reports failure (status_text failure).
Proof. destruct failure as [e|]; [split; [done|discriminate] | reflexivity]. Qed.

Lemma all_reachable_health_body (f g : option exn) :
  all_reachable (health_body (status_text f) (status_text g))
  = bool_decide (f = None ∧ g = None).
Proof.
  destruct f as [e|], g as [e'|]; cbn; rewrite ?andb_false_r; try reflexivity.
Qed.

(** C1, as amended: the status field of the health report is 'healthy' for
    every set of probe outcomes; it agrees with the aggregation rule exactly
    when every dependency is reachable, and when the database probe succeeds
    and the cache probe fails the body is status 'healthy', database
    'connected', redis 'error: ' followed by the message of the exception. *)
Theorem health_status_always_healthy (w : World) (Hr : responsive w = true) :
  ∃ d w',
    App.GET "/health" w = Return (Response 200 (Json d)) w'
    ∧ dict_get "status" d = Some (PyStr "healthy")
    ∧ (all_reachable d = true ↔ db_failure w = None ∧ redis_failure w = None)
    ∧ (dict_get "status" d = Some (PyStr (spec_overall_status d))
       ↔ all_reachable d = true)
    ∧ (∀ e, db_failure w = None → redis_failure w = Some e →
       d = [("status", PyStr "healthy"); ("database", PyStr "connected");
            ("redis", PyStr ("error: " ++ exn_str e))]).
Proof.
  eexists _, _. split.
  { rewrite GET_health. apply handle_exception_return, health_responsive, Hr. }
  split; [reflexivity|]. split.
  { rewrite all_reachable_health_body. apply bool_decide_eq_true. }
  split.
  { unfold spec_overall_status.
    destruct (all_reachable _); split; (done || discriminate). }
  intros e -> ->. reflexivity.
Qed.

Lemma health_status_always_healthy_witness :
  responsive cache_down_world = true
  ∧ ∃ d w',
      App.GET "/health" cache_down_world = Return (Response 200 (Json d)) w'
      ∧ dict_get "status" d = Some (PyStr "healthy").
Proof.
  split; [reflexivity|].
  destruct (health_status_always_healthy cache_down_world eq_refl)
    as (d & w' & H1 & H2 & _).
  exists d, w'. split; assumption.
Defined.

(** C1, as stated, fails: with the database reachable and the cache
    refusing connections the rule asks for 'degraded', the report says
    'healthy'. *)
Lemma health_status_cache_down :
  ∃ d w',
    App.GET "/health" cache_down_world = Return (Response 200 (Json d)) w'
    ∧ dict_get "database" d = Some (PyStr "connected")
    ∧ all_reachable d = false
    ∧ spec_overall_status d = "degraded"
    ∧ dict_get "status" d = Some (PyStr "healthy")
    ∧ dict_get "status" d ≠ Some (PyStr (spec_overall_status d)).
Proof.
  eexists _, _. split; [vm_compute; reflexivity|].
  repeat split; discriminate.
Qed.

(** C4, as amended: no exception leaves the health handler in any world.
    Whenever the calls it makes to its dependencies come back, with a
    result or with an exception, GET /health answers 200 with the
    three-field report, each dependency field carrying the outcome of its
    probe; when the call to the database, or the call to the cache behind a
    port that [int] accepts, never comes back, GET /health never answers. *)
Theorem health_always_200 (w : World) :
  (∀ e w', App.health w ≠ Raise e w')
  ∧ (is_silent (pg_link w) = false → redis_hangs w = false →
     ∃ db_status redis_status w',
       App.health w
       = Return (Response 200 (Json (health_body db_status redis_status))) w'
       ∧ App.GET "/health" w
         = Return (Response 200 (Json (health_body db_status redis_status))) w'
       ∧ reports (db_failure w) db_status
       ∧ reports (redis_failure w) redis_status)
  ∧ (is_silent (pg_link w) = true ∨ redis_hangs w = true →
     ∃ w', App.GET "/health" w = Blocked w').
Proof.
  split; [|split].
  - intros e w'. rewrite health_eq.
    destruct (is_silent _); [discriminate|].
    destruct (redis_hangs w); discriminate.
  - intros H1 H2. eexists _, _, _.
    split; [by apply health_returns|].
    split; [rewrite GET_health_eq; by apply health_returns|].
    split; apply status_text_reports.
  - rewrite GET_health_eq, health_eq. intros [-> | H2]; [eauto|].
    destruct (is_silent _); [eauto|]. rewrite H2. eauto.
Qed.

Lemma health_always_200_witness :
  (is_silent (pg_link cache_down_world) = false
   ∧ redis_hangs cache_down_world = false
   ∧ ∃ db_status redis_status w',
       App.GET "/health" cache_down_world
       = Return (Response 200 (Json (health_body db_status redis_status))) w')
  ∧ (redis_hangs cache_silent_world = true
     ∧ ∃ w', App.GET "/health" cache_silent_world = Blocked w').
Proof.
  split.
  - split; [reflexivity|]. split; [reflexivity|].
    destruct (proj1 (proj2 (health_always_200 cache_down_world))
                eq_refl eq_refl) as (d & c & w' & _ & H & _).
    exists d, c, w'. exact H.
  - split; [reflexivity|].
    exact (proj2 (proj2 (health_always_200 cache_silent_world))
             (or_intror eq_refl)).
Defined.

(** C4, as stated, fails: with the database reachable and a cache whose
    answer never comes, GET /health gives no response at all, so not 200. *)
Lemma health_never_answers_silent_cache :
  ∃ w',
    App.GET "/health" cache_silent_world = Blocked w'
    ∧ ∀ r w'', App.GET "/health" cache_silent_world ≠ Return r w''.
Proof.
  eexists. split; [reflexivity|]. intros r w''. discriminate.
Qed.

(** C5: in every execution of the health check the dependency entries of the
    report are the database's and then the cache's, in the body as built and
    in the body with sorted keys alike; the probes run one after the other,
    so every request of the database probe precedes every request of the
    cache probe. *)
Theorem health_results_in_input_order (w : World) (Hr : responsive w = true) :
  ∃ d w' db_status redis_status (evs_db evs_cache : list event),
    App.health w = Return (Response 200 (Json d)) w'
    ∧ dependency_results d
      = [("database", PyStr db_status); ("redis", PyStr redis_status)]
    ∧ dependency_results (sort_keys d)
      = [("database", PyStr db_status); ("redis", PyStr redis_status)]
    ∧ reports (db_failure w) db_status
    ∧ reports (redis_failure w) redis_status
    ∧ trace w' = (trace w ++ evs_db ++ evs_cache)%list
    ∧ forallb is_pg_event evs_db = true
    ∧ forallb is_redis_event evs_cache = true.
Proof.
  eexists _, _, _, _, (db_events w), (redis_events w).
  split; [apply health_responsive, Hr|].
  split; [reflexivity|]. split; [reflexivity|].
  split; [apply status_text_reports|]. split; [apply status_text_reports|].
  split; [reflexivity|].
  split; [apply db_events_pg | apply redis_events_redis].
Qed.

Lemma health_results_in_input_order_witness :
  responsive fresh_world = true
  ∧ ∃ d w',
      App.health fresh_world = Return (Response 200 (Json d)) w'
      ∧ dict_keys (dependency_results d) = ["database"; "redis"].
Proof.
  split; [reflexivity|].
  destruct (health_results_in_input_order fresh_world eq_refl)
    as (d & w' & a & b & _ & _ & H1 & H2 & _).
  exists d, w'. split; [exact H1|]. rewrite H2. reflexivity.
Defined.

(** C6, as amended: a probe whose client call comes back reports
    'connected', with no error detail, when its check passes, and when the
    check fails with an exception it reports 'error: ' followed by the
    exception's own message, a text that is never the one of a reachable
    dependency and whose detail is empty when the exception carries no
    message; a probe whose client call never comes back reports nothing. *)
Theorem probe_reports_outcome (w : World) :
  (is_silent (pg_link w) = false →
   ∃ db_status w1,
     App.db_probe w = Return db_status w1
     ∧ reports (db_failure w) db_status
     ∧ ∀ e, db_failure w = Some e → exn_str e = "" → db_status = "error: ")
  ∧ (redis_hangs w = false →
     ∃ redis_status w2,
       App.redis_probe w = Return redis_status w2
       ∧ reports (redis_failure w) redis_status
       ∧ ∀ e, redis_failure w = Some e → exn_str e = "" →
              redis_status = "error: ")
  ∧ (is_silent (pg_link w) = true → ∃ w1, App.db_probe w = Blocked w1)
  ∧ (redis_hangs w = true → ∃ w2, App.redis_probe w = Blocked w2).
Proof.
  rewrite db_probe_extend, redis_probe_extend.
  split; [|split; [|split]].
  - intros ->. eexists _, _. split; [reflexivity|].
    split; [apply status_text_reports|].
    intros e -> He. cbn. by rewrite He.
  - intros ->. eexists _, _. split; [reflexivity|].
    split; [apply status_text_reports|].
    intros e -> He. cbn. by rewrite He.
  - intros ->. eauto.
  - intros ->. eauto.
Qed.

Lemma probe_reports_outcome_witness :
  (redis_hangs cache_down_world = false
   ∧ ∃ w2, App.redis_probe cache_down_world
           = Return ("error: " ++ exn_str ConnectionRefused) w2)
  ∧ (is_silent (pg_link db_silent_world) = true
     ∧ ∃ w1, App.db_probe db_silent_world = Blocked w1).
Proof.
  split; (split; [reflexivity|]).
  - destruct (proj1 (proj2 (probe_reports_outcome cache_down_world)) eq_refl)
      as (c & w2 & H & [Hc _] & _).
    exists w2. rewrite H. f_equal. exact Hc.
  - exact (proj1 (proj2 (proj2 (probe_reports_outcome db_silent_world)))
             eq_refl).
Defined.

(** C6, as stated, fails: the probe of a database whose answer never comes
    yields no result, reachable or not, and the probe of a database whose
    client raises an exception without a message reports an empty detail. *)
Lemma probe_without_result_or_detail :
  (∃ w1, App.db_probe db_silent_world = Blocked w1)
  ∧ (∃ w1, App.db_probe db_nameless_error_world
           = Return ("error: " ++ "") w1).
Proof. split; eexists; reflexivity. Qed.

Lemma counter_eq (w : World) :
  App.counter w =
  match int_of_str w (redis_port w) with
  | inl e => Raise e w
  | inr p =>
      let w' := log (incr_hits w p) w in
      match redis_link w with
      | Up =>
          match redis_data w !! "hits" with
          | None => Return (visits 1)
                      (set_redis_data (<["hits" := RInt 1]> (redis_data w)) w')
          | Some (RInt n) =>
              if n <? int64_max
              then Return (visits (n + 1))
                     (set_redis_data
                        (<["hits" := RInt (n + 1)]> (redis_data w)) w')
              else Raise redis_overflow w'
          | Some RText => Raise redis_not_integer w'
          | Some RContainer => Raise redis_wrong_type w'
          end
      | Down e => Raise e w'
      | Silent => Blocked w'
      end
  end.
Proof.
  unfold App.counter, bind. rewrite get_redis_eq.
  destruct (int_of_str w (redis_port w)) as [e|p]; [reflexivity|].
  unfold redis_incr, bind, redis_execute. cbn [redis_kwargs].
  destruct (redis_link w); try reflexivity.
  unfold redis_serve.
  destruct (redis_data w !! "hits") as [[n| |]|]; try reflexivity.
  destruct (n <? int64_max); reflexivity.
Qed.

Lemma GET_counter_eq (w : World) :
  App.GET "/counter" w =
  match App.counter w with
  | Return r w' => Return r w'
  | Raise e w' => Return (Response 500 (InternalServerError e)) w'
  | Blocked w' => Blocked w'
  end.
Proof. reflexivity. Qed.

Lemma home_eq (w : World) :
  App.home w = Return (Response 200 (Json (flask_home_body w))) w.
Proof. reflexivity. Qed.

Lemma django_home_eq (req : Urls.HttpRequest) (w : World) :
  Urls.home req w =
  let w1 := log (EvDjangoConnect (django_settings w)) w in
  match pg_link w with
  | Up => Return (Response 200
                    (Json (django_home_body w (status_text (pg_query_error w)))))
                 (log (EvPgExecute "SELECT 1") w1)
  | Down e => Return (Response 200
                        (Json (django_home_body w (status_text (Some e))))) w1
  | Silent => Blocked w1
  end.
Proof.
  unfold Urls.home, try_except, bind, Urls.connection_cursor, bind.
  unfold Settings.DATABASES_default, bind, os_getenv, ret,
    django_connection_cursor.
  destruct (pg_link w); try reflexivity.
  unfold pg_execute. cbn [pg_query_error log].
  destruct (pg_query_error w); reflexivity.
Qed.

Lemma django_home_extend (req : Urls.HttpRequest) (w : World) :
  Urls.home req w =
  if is_silent (pg_link w) then Blocked (extend (django_events w) w)
  else Return (Response 200
                 (Json (django_home_body w (status_text (django_db_failure w)))))
              (extend (django_events w) w).
Proof.
  rewrite django_home_eq. unfold django_events, django_db_failure. cbv zeta.
  destruct (pg_link w); cbn [is_silent];
    rewrite ?log_extend, ?extend_extend; reflexivity.
Qed.

Lemma counter_raises_when_down (w : World) (e : exn) :
  redis_link w = Down e →
  ∃ e' w', App.counter w = Raise e' w' ∧ redis_failure w = Some e'
           ∧ redis_data w' = redis_data w
           ∧ (∀ p, int_of_str w (redis_port w) = inr p →
                e' = e ∧ w' = log (incr_hits w p) w)
           ∧ (∀ e0, int_of_str w (redis_port w) = inl e0 → e' = e0 ∧ w' = w).
Proof.
  intros Hdown. rewrite counter_eq. unfold redis_failure.
  destruct (int_of_str w (redis_port w)) as [e0|p]; rewrite ?Hdown; cbv zeta;
    eexists _, _; (split; [reflexivity|]); (split; [reflexivity|]);
    (split; [reflexivity|]); split; intros ? [= <-]; done.
Qed.

(** C7, as amended: the code gives no probe a time limit.  None of the
    requests the health check sends carries a timeout argument; the check
    returns whenever the calls to both servers come back, and it stays
    blocked when the call to the database, or the call to the cache behind a
    port that [int] accepts, never comes back. *)
Theorem probes_apply_no_timeout (w : World) :
  (∃ evs : list event,
      trace (final_world (App.health w)) = (trace w ++ evs)%list
      ∧ Forall (fun ev => timeout_of ev = None) evs)
  ∧ (is_silent (pg_link w) = false → redis_hangs w = false →
     ∃ r w', App.health w = Return r w')
  ∧ (is_silent (pg_link w) = true → ∃ w', App.health w = Blocked w')
  ∧ (is_silent (pg_link w) = false → redis_hangs w = true →
     ∃ w', App.health w = Blocked w').
Proof.
  rewrite health_eq. repeat split.
  - destruct (is_silent (pg_link w)); [|destruct (redis_hangs w)];
      eexists; (split; [reflexivity|]);
      rewrite ?Forall_app; auto using db_events_no_timeout,
        redis_events_no_timeout.
  - intros -> ->. eauto.
  - intros ->. eauto.
  - intros -> ->. eauto.
Qed.

Lemma probes_apply_no_timeout_witness :
  (is_silent (pg_link fresh_world) = false
   ∧ redis_hangs fresh_world = false
   ∧ ∃ r w', App.health fresh_world = Return r w')
  ∧ (is_silent (pg_link db_silent_world) = true
     ∧ ∃ w', App.health db_silent_world = Blocked w')
  ∧ (is_silent (pg_link cache_silent_world) = false
     ∧ redis_hangs cache_silent_world = true
     ∧ ∃ w', App.health cache_silent_world = Blocked w').
Proof.
  split; [|split].
  - split; [reflexivity|]. split; [reflexivity|].
    exact (proj1 (proj2 (probes_apply_no_timeout fresh_world))
             eq_refl eq_refl).
  - split; [reflexivity|].
    exact (proj1 (proj2 (proj2 (probes_apply_no_timeout db_silent_world)))
             eq_refl).
  - split; [reflexivity|]. split; [reflexivity|].
    exact (proj2 (proj2 (proj2 (probes_apply_no_timeout cache_silent_world)))
             eq_refl eq_refl).
Defined.

(** C7, as stated, fails: against a database whose answer never comes the
    health check sends its connection request without any time limit and
    never returns. *)
Lemma health_blocks_on_silent_database :
  ∃ w',
    App.GET "/health" db_silent_world = Blocked w'
    ∧ trace w' = [EvPgConnect (db_kwargs db_silent_world)]
    ∧ Forall (fun ev => timeout_of ev = None) (trace w').
Proof.
  eexists. split; [reflexivity|]. split; [reflexivity|].
  repeat constructor.
Qed.

(** C2, as amended: when the client of the shared store raises, the counter
    handler lets an exception leave: the client's own, after its one
    request, when [int] accepts REDIS_PORT, and otherwise the exception of
    [int], before any request.  The framework answers it with status 500;
    no count is returned and the store is left as it was.  The home and
    health handlers of both applications answer 200 whenever they answer. *)
Theorem counter_fails_when_store_down (w : World) (e : exn)
    (Hdown : redis_link w = Down e) :
  (∃ e' w',
      App.counter w = Raise e' w'
      ∧ redis_failure w = Some e'
      ∧ (∀ p, int_of_str w (redis_port w) = inr p →
           e' = e ∧ trace w' = (trace w ++ [incr_hits w p])%list)
      ∧ (∀ e0, int_of_str w (redis_port w) = inl e0 →
           e' = e0 ∧ trace w' = trace w)
      ∧ App.GET "/counter" w = Return (Response 500 (InternalServerError e')) w'
      ∧ redis_data w' = redis_data w)
  ∧ (∀ w0 r w1, App.GET "/" w0 = Return r w1 → status_code r = 200)
  ∧ (∀ w0 r w1, App.GET "/health" w0 = Return r w1 → status_code r = 200)
  ∧ (∀ req w0 r w1, Urls.home req w0 = Return r w1 → status_code r = 200)
  ∧ (∀ req w0 r w1, Urls.health req w0 = Return r w1 → status_code r = 200).
Proof.
  split.
  { destruct (counter_raises_when_down w e Hdown)
      as (e' & w' & H1 & H2 & H3 & H4 & H5).
    exists e', w'. repeat split; try assumption.
    - by destruct (H4 p).
    - destruct (H4 p) as [_ ->]; done.
    - by destruct (H5 e0).
    - destruct (H5 e0) as [_ ->]; done.
    - by rewrite GET_counter_eq, H1. }
  repeat split.
  - intros w0 r w1. change (App.GET "/" w0) with (handle_exception App.home w0).
    unfold handle_exception, try_except. rewrite home_eq. by intros [= <- _].
  - intros w0 r w1. rewrite GET_health_eq, health_eq.
    destruct (is_silent _); [discriminate|].
    destruct (redis_hangs w0); [discriminate|]. by intros [= <- _].
  - intros req w0 r w1. rewrite django_home_extend.
    destruct (is_silent _); [discriminate|]. by intros [= <- _].
  - intros req w0 r w1. by intros [= <- _].
Qed.

Lemma counter_fails_when_store_down_witness :
  redis_link cache_down_world = Down ConnectionRefused
  ∧ ∃ w', App.GET "/counter" cache_down_world
          = Return (Response 500 (InternalServerError ConnectionRefused)) w'.
Proof.
  split; [reflexivity|].
  destruct (proj1 (counter_fails_when_store_down cache_down_world
                     ConnectionRefused eq_refl))
    as (e' & w' & _ & _ & He & _ & H & _).
  exists w'. rewrite H. by destruct (He 6379 eq_refl) as [-> _].
Defined.

(** C2, as stated, fails: with the store refusing connections GET /counter
    answers 500 with the client's ConnectionError, not 503 with
    DependencyUnavailable. *)
Lemma counter_store_down_is_500 :
  ∃ r w',
    App.GET "/counter" cache_down_world = Return r w'
    ∧ status_code r = 500
    ∧ status_code r ≠ 503
    ∧ content r = InternalServerError ConnectionRefused
    ∧ exn_class ConnectionRefused ≠ "DependencyUnavailable".
Proof.
  eexists _, _. split; [reflexivity|]. repeat split; discriminate.
Qed.

(** C9, as amended: the home handler of the Flask application answers every
    GET / with 200 and a body of exactly the fields message, hostname and
    environment, the last taken from APP_ENV with default 'development'.
    The home view of the Django application answers, for every request
    during which the call to the database comes back, 200 with these three
    fields followed by a fourth, database; when that call never comes back
    the view never answers. *)
Theorem home_reports_identity (w : World) :
  App.GET "/" w = Return (Response 200 (Json (flask_home_body w))) w
  ∧ dict_keys (flask_home_body w) = ["message"; "hostname"; "environment"]
  ∧ dict_get "environment" (flask_home_body w)
    = Some (PyStr (default "development" (environ w !! "APP_ENV")))
  ∧ (∀ req, is_silent (pg_link w) = false →
     ∃ db_status w',
       Urls.home req w
       = Return (Response 200 (Json (django_home_body w db_status))) w'
       ∧ dict_keys (django_home_body w db_status)
         = ["message"; "hostname"; "environment"; "database"]
       ∧ dict_get "environment" (django_home_body w db_status)
         = Some (PyStr (default "development" (environ w !! "APP_ENV"))))
  ∧ (∀ req, is_silent (pg_link w) = true →
     ∃ w', Urls.home req w = Blocked w').
Proof.
  repeat split.
  - intros req Hs. rewrite django_home_extend, Hs. eexists _, _.
    repeat split.
  - intros req Hs. rewrite django_home_extend, Hs. eauto.
Qed.

Lemma home_reports_identity_witness :
  (is_silent (pg_link fresh_world) = false
   ∧ ∃ db_status w',
       Urls.home (Urls.Request "GET" "/") fresh_world
       = Return (Response 200 (Json (django_home_body fresh_world db_status)))
                w')
  ∧ (is_silent (pg_link db_silent_world) = true
     ∧ ∃ w', Urls.home (Urls.Request "GET" "/") db_silent_world = Blocked w').
Proof.
  split; (split; [reflexivity|]).
  - destruct (proj1 (proj2 (proj2 (proj2 (home_reports_identity fresh_world))))
                (Urls.Request "GET" "/") eq_refl) as (s & w' & H & _).
    exists s, w'. exact H.
  - exact (proj2 (proj2 (proj2 (proj2 (home_reports_identity db_silent_world))))
             (Urls.Request "GET" "/") eq_refl).
Defined.

(** C9, as stated, fails on the home view of the Django application: the
    body it returns for GET / has a fourth field. *)
Lemma django_home_has_database_field :
  ∃ d w',
    Urls.home (Urls.Request "GET" "/") fresh_world
    = Return (Response 200 (Json d)) w'
    ∧ dict_keys d = ["message"; "hostname"; "environment"; "database"]
    ∧ dict_keys d ≠ ["message"; "hostname"; "environment"].
Proof.
  eexists _, _. split; [vm_compute; reflexivity|]. split; [reflexivity|].
  discriminate.
Qed.

(** C10: the health view of the Django application returns status 200 and
    the body 'status': 'healthy' for every request and every world, and
    leaves the world, the log of requests to the dependencies included, as
    it found it. *)
Theorem django_health_constant (req : Urls.HttpRequest) (w : World) :
  Urls.health req w
  = Return (Response 200 (Json [("status", PyStr "healthy")])) w
  ∧ trace (final_world (Urls.health req w)) = trace w.
Proof. repeat split. Qed.

Lemma counter_succeeds (w : World) (p n : Z) :
  int_of_str w (redis_port w) = inr p →
  redis_link w = Up →
  counter_value (redis_data w) = Some n →
  n < int64_max →
  App.counter w = Return (visits (n + 1)) (after_incr w p n).
Proof.
  intros Hp Hup Hn Hlt. rewrite counter_eq, Hp, Hup. cbv zeta.
  unfold counter_value in Hn. unfold after_incr.
  destruct (redis_data w !! "hits") as [[m| |]|]; simplify_eq.
  - apply Z.ltb_lt in Hlt. by rewrite Hlt.
  - reflexivity.
Qed.

Lemma counter_returns_inv (w : World) (r : response) (w' : World) :
  App.counter w = Return r w' →
  ∃ p n, int_of_str w (redis_port w) = inr p
         ∧ redis_link w = Up
         ∧ counter_value (redis_data w) = Some n
         ∧ n < int64_max
         ∧ r = visits (n + 1)
         ∧ w' = after_incr w p n.
Proof.
  rewrite counter_eq. unfold counter_value, after_incr.
  destruct (int_of_str w (redis_port w)) as [e|p]; [discriminate|]. cbv zeta.
  destruct (redis_link w); try discriminate.
  destruct (redis_data w !! "hits") as [[m| |]|]; try discriminate.
  - destruct (m <? int64_max) eqn:Hlt; [|discriminate].
    apply Z.ltb_lt in Hlt. intros [= <- <-]. by exists p, m.
  - intros [= <- <-]. by exists p, 0.
Qed.

Lemma counter_value_after_incr (w : World) (p n : Z) :
  counter_value (redis_data (after_incr w p n)) = Some (n + 1).
Proof.
  unfold counter_value, after_incr. cbn. by rewrite lookup_insert_eq.
Qed.

Lemma after_incr_trace (w : World) (p n : Z) :
  trace (after_incr w p n) = (trace w ++ [incr_hits w p])%list.
Proof. reflexivity. Qed.

Lemma counter_trace (w : World) (p : Z) :
  int_of_str w (redis_port w) = inr p →
  trace (final_world (App.counter w)) = (trace w ++ [incr_hits w p])%list.
Proof.
  intros Hp. rewrite counter_eq, Hp. cbv zeta.
  destruct (redis_link w); try reflexivity.
  destruct (redis_data w !! "hits") as [[m| |]|]; try reflexivity.
  destruct (m <? int64_max); reflexivity.
Qed.

Lemma GET_counter_return (w : World) (r : response) (w' : World) :
  App.counter w = Return r w' → App.GET "/counter" w = Return r w'.
Proof. intros H. by rewrite GET_counter_eq, H. Qed.

(** C3, as amended: a call of the counter handler sends the store exactly
    one request, an INCR of 'hits', when [int] accepts REDIS_PORT, and fails
    before sending anything when it does not.  A call that succeeds returns
    the stored count plus one and leaves exactly that in the store, and a
    call succeeds whenever the port is accepted, the store is up and holds a
    count below the 64-bit limit; then, on a fresh store, three
    GET /counter requests in a row answer visits 1, visits 2, visits 3. *)
Theorem counter_increments_by_one (w : World) :
  (∀ p, int_of_str w (redis_port w) = inr p →
     trace (final_world (App.counter w))
     = (trace w ++ [EvRedis (cache_kwargs w p) (INCR "hits")])%list)
  ∧ (∀ e, int_of_str w (redis_port w) = inl e → App.counter w = Raise e w)
  ∧ (∀ r w', App.counter w = Return r w' →
       ∃ n, counter_value (redis_data w) = Some n
            ∧ r = Response 200 (Json [("visits", PyInt (n + 1))])
            ∧ counter_value (redis_data w') = Some (n + 1))
  ∧ (∀ p n, int_of_str w (redis_port w) = inr p → redis_link w = Up →
            counter_value (redis_data w) = Some n → n < int64_max →
       ∃ w', App.GET "/counter" w
             = Return (Response 200 (Json [("visits", PyInt (n + 1))])) w'
             ∧ counter_value (redis_data w') = Some (n + 1))
  ∧ (∀ p, int_of_str w (redis_port w) = inr p → redis_link w = Up →
          redis_data w = ∅ →
     ∃ w1 w2 w3,
       App.GET "/counter" w
       = Return (Response 200 (Json [("visits", PyInt 1)])) w1
       ∧ App.GET "/counter" w1
         = Return (Response 200 (Json [("visits", PyInt 2)])) w2
       ∧ App.GET "/counter" w2
         = Return (Response 200 (Json [("visits", PyInt 3)])) w3).
Proof.
  split; [intros p; apply counter_trace|]. split; [|split; [|split]].
  - intros e He. by rewrite counter_eq, He.
  - intros r w' (p' & n & _ & _ & Hn & _ & -> & ->)%counter_returns_inv.
    exists n. split; [done|]. split; [done|]. apply counter_value_after_incr.
  - intros p n Hp Hup Hn Hlt. exists (after_incr w p n). split.
    + by apply GET_counter_return, counter_succeeds.
    + apply counter_value_after_incr.
  - intros p Hp Hup Hempty.
    assert (H0 : counter_value (redis_data w) = Some 0)
      by (by rewrite Hempty).
    exists (after_incr w p 0), (after_incr (after_incr w p 0) p 1),
      (after_incr (after_incr (after_incr w p 0) p 1) p 2).
    split; [|split]; apply GET_counter_return.
    + by apply (counter_succeeds w p 0).
    + apply (counter_succeeds _ p 1); try done. apply counter_value_after_incr.
    + apply (counter_succeeds _ p 2); try done. apply counter_value_after_incr.
Qed.

Lemma counter_increments_by_one_witness :
  int_of_str fresh_world (redis_port fresh_world) = inr 6379
  ∧ redis_link fresh_world = Up
  ∧ redis_data fresh_world = ∅
  ∧ ∃ w1 w2 w3,
      App.GET "/counter" fresh_world
      = Return (Response 200 (Json [("visits", PyInt 1)])) w1
      ∧ App.GET "/counter" w1
        = Return (Response 200 (Json [("visits", PyInt 2)])) w2
      ∧ App.GET "/counter" w2
        = Return (Response 200 (Json [("visits", PyInt 3)])) w3.
Proof.
  split; [reflexivity|]. split; [reflexivity|]. split; [reflexivity|].
  exact (proj2 (proj2 (proj2 (proj2
           (counter_increments_by_one fresh_world))))
           6379 eq_refl eq_refl eq_refl).
Defined.

(** C3, as stated, fails: with a REDIS_PORT that [int] rejects, a call to
    the counter endpoint is answered 500 and no increment request, nor any
    other, has been sent. *)
Lemma counter_rejected_port_sends_nothing :
  ∃ r w',
    App.GET "/counter" malformed_port_world = Return r w'
    ∧ status_code r = 500
    ∧ trace w' = trace malformed_port_world
    ∧ trace w' = [].
Proof. eexists _, _. repeat split. Qed.

Lemma counter_phases (w : World) :
  App.counter w = bind App.get_redis counter_rest w.
Proof. reflexivity. Qed.

Lemma counter_rest_cases (r : redis_client) (w : World) :
  let w' := log (EvRedis (redis_kwargs r) (INCR "hits")) w in
  (∃ n, redis_link w = Up
        ∧ counter_value (redis_data w) = Some n
        ∧ n < int64_max
        ∧ counter_rest r w
          = Return (visits (n + 1))
              (set_redis_data (<["hits" := RInt (n + 1)]> (redis_data w)) w'))
  ∨ (∃ e, counter_rest r w = Raise e w')
  ∨ counter_rest r w = Blocked w'.
Proof.
  unfold counter_rest, redis_incr, bind, redis_execute, counter_value,
    redis_serve. cbv zeta.
  destruct (redis_link w); [|right; left; eauto|right; by right].
  destruct (redis_data w !! "hits") as [[m| |]|].
  - destruct (m <? int64_max) eqn:Hlt; [|right; left; by eauto].
    apply Z.ltb_lt in Hlt. left. exists m. by repeat split.
  - right; left; by eauto.
  - right; left; by eauto.
  - left. exists 0. by repeat split.
Qed.

Lemma counter_rest_succeeds (r : redis_client) (w : World) (n : Z) :
  redis_link w = Up →
  counter_value (redis_data w) = Some n →
  n < int64_max →
  counter_rest r w
  = Return (visits (n + 1))
      (set_redis_data (<["hits" := RInt (n + 1)]> (redis_data w))
         (log (EvRedis (redis_kwargs r) (INCR "hits")) w)).
Proof.
  intros Hup Hn Hlt.
  unfold counter_rest, redis_incr, bind, redis_execute. rewrite Hup.
  unfold redis_serve. unfold counter_value in Hn.
  destruct (redis_data w !! "hits") as [[m| |]|]; simplify_eq.
  - apply Z.ltb_lt in Hlt. by rewrite Hlt.
  - reflexivity.
Qed.

Lemma omap_length_le {A B : Type} (f : A → option B) (l : list A) :
  (length (omap f l) ≤ length l)%nat.
Proof.
  induction l as [|a l IH]; cbn; [lia|].
  destruct (f a); cbn in *; lia.
Qed.

Lemma omap_insert_None {A B : Type} (f : A → option B) (l : list A)
    (i : nat) (x y : A) :
  l !! i = Some x → f x = None → f y = None →
  omap f (<[i := y]> l) = omap f l.
Proof.
  revert i. induction l as [|a l IH]; intros [|i] Hl Hx Hy;
    try discriminate; cbn in *.
  - injection Hl as ->. by rewrite Hx, Hy.
  - specialize (IH i Hl Hx Hy). destruct (f a); [f_equal|]; exact IH.
Qed.

Lemma omap_insert_Some {A B : Type} (f : A → option B) (l : list A)
    (i : nat) (x y : A) (b : B) :
  l !! i = Some x → f x = None → f y = Some b →
  omap f (<[i := y]> l) ≡ₚ b :: omap f l.
Proof.
  revert i. induction l as [|a l IH]; intros [|i] Hl Hx Hy;
    try discriminate; cbn in *.
  - injection Hl as ->. by rewrite Hx, Hy.
  - specialize (IH i Hl Hx Hy). destruct (f a) as [c|]; [|exact IH].
    etrans; [apply Permutation_skip, IH | apply perm_swap].
Qed.

Lemma omap_length_lt {A B : Type} (f : A → option B) (l : list A)
    (i : nat) (x : A) :
  l !! i = Some x → f x = None → (length (omap f l) < length l)%nat.
Proof.
  revert i. induction l as [|a l IH]; intros [|i] Hl Hx;
    try discriminate; cbn in *.
  - injection Hl as ->. rewrite Hx. pose proof (omap_length_le f l). lia.
  - specialize (IH i Hl Hx). destruct (f a); cbn in *; lia.
Qed.

Lemma omap_length_all {A B : Type} (f : A → option B) (l : list A) :
  Forall (fun a => is_Some (f a)) l → length (omap f l) = length l.
Proof.
  induction 1 as [|a l [b Hb] _ IH]; cbn; [done|].
  rewrite Hb. cbn in *. by rewrite IH.
Qed.

Lemma returned_start (N : nat) : returned (replicate N Start) = [].
Proof. induction N as [|N IH]; [done|exact IH]. Qed.

Lemma returned_insert_same (l : list phase) (i : nat) (ph ph' : phase) :
  l !! i = Some ph → is_finished ph = false → value_of ph' = None →
  returned (<[i := ph']> l) = returned l.
Proof.
  intros Hi Hph Hv. eapply omap_insert_None; [exact Hi| |exact Hv].
  by destruct ph.
Qed.

Lemma returned_insert_value (l : list phase) (i : nat) (ph ph' : phase)
    (n : Z) :
  l !! i = Some ph → is_finished ph = false → value_of ph' = Some n →
  returned (<[i := ph']> l) ≡ₚ n :: returned l.
Proof.
  intros Hi Hph Hv. eapply omap_insert_Some; [exact Hi| |exact Hv].
  by destruct ph.
Qed.

Lemma finished_insert_le (l : list phase) (i : nat) (ph ph' : phase) :
  l !! i = Some ph → is_finished ph = false →
  (length (omap finished_mark l)
   ≤ length (omap finished_mark (<[i := ph']> l)))%nat.
Proof.
  intros Hi Hph.
  assert (Hold : finished_mark ph = None)
    by (unfold finished_mark; by rewrite Hph).
  destruct (is_finished ph') eqn:Hf.
  - assert (H : omap finished_mark (<[i := ph']> l)
                ≡ₚ tt :: omap finished_mark l).
    { eapply omap_insert_Some; [exact Hi|exact Hold|].
      unfold finished_mark. by rewrite Hf. }
    apply Permutation_length in H. rewrite H. cbn. lia.
  - assert (H : omap finished_mark (<[i := ph']> l) = omap finished_mark l).
    { eapply omap_insert_None; [exact Hi|exact Hold|].
      unfold finished_mark. by rewrite Hf. }
    rewrite H. lia.
Qed.

Lemma finished_insert_S (l : list phase) (i : nat) (ph : phase) (o : result) :
  l !! i = Some ph → is_finished ph = false →
  length (omap finished_mark (<[i := Finished o]> l))
  = S (length (omap finished_mark l)).
Proof.
  intros Hi Hph.
  assert (H : omap finished_mark (<[i := Finished o]> l)
              ≡ₚ tt :: omap finished_mark l).
  { eapply omap_insert_Some; [exact Hi| |reflexivity].
    unfold finished_mark. by rewrite Hph. }
  apply Permutation_length in H. by rewrite H.
Qed.

Lemma counts_inv_init (w0 : World) (N : nat) :
  counts_inv w0 N (System w0 (replicate N Start)).
Proof.
  split; cbn [shared callers]; rewrite ?returned_start; cbn [length].
  - apply length_replicate.
  - intros v0 Hv0. by rewrite Z.add_0_r.
  - done.
  - exists []. rewrite app_nil_r. repeat split; cbn; lia.
Qed.

Lemma counts_inv_step (w0 : World) (N : nat) (s s' : system) :
  counts_inv w0 N s → step s s' → counts_inv w0 N s'.
Proof.
  intros [Hlen Hsome Hnone (evs & Htr & Hincr & Hlo & Hhi)] Hstep.
  destruct Hstep as [s i ph ph' w' Hi Hadv].
  destruct ph as [|r|o]; unfold advance in Hadv; [| |discriminate];
    injection Hadv as Hadv.
  - (* get_redis: the world is left as it was *)
    assert (w' = shared s ∧ value_of ph' = None) as [-> Hv].
    { rewrite get_redis_eq in Hadv.
      destruct (int_of_str _ _); injection Hadv as <- <-; done. }
    pose proof (returned_insert_same _ i Start ph' Hi eq_refl Hv) as Hret.
    pose proof (finished_insert_le _ i Start ph' Hi eq_refl).
    split; cbn [shared callers]; rewrite ?Hret; try done.
    + by rewrite length_insert.
    + exists evs. repeat split; (done || lia).
  - (* the increment *)
    set (ev := EvRedis (redis_kwargs r) (INCR "hits")).
    set (k := length (returned (callers s))) in *.
    destruct (counter_rest_cases r (shared s))
      as [(n & Hup & Hn & Hlt & Hrest)|Hfail].
    + rewrite Hrest in Hadv. injection Hadv as <- <-.
      pose proof (returned_insert_value _ i (HasClient r)
                    (Finished (Ok (visits (n + 1)))) (n + 1) Hi eq_refl eq_refl)
        as Hret.
      assert (Hk : length (returned
                  (<[i := Finished (Ok (visits (n + 1)))]> (callers s))) = S k)
        by (by rewrite Hret).
      pose proof (finished_insert_S _ i (HasClient r) (Ok (visits (n + 1)))
                    Hi eq_refl) as Hfin.
      split; cbn [shared callers]; rewrite ?Hk.
      * by rewrite length_insert.
      * intros v0 Hv0. destruct (Hsome v0 Hv0) as [Hcnt Hval].
        assert (n = v0 + Z.of_nat k) as -> by congruence.
        split.
        -- unfold counter_value, set_redis_data. cbn [redis_data].
           rewrite lookup_insert_eq. f_equal. lia.
        -- rewrite Hret, seqZ_S, Hval.
           replace (v0 + 1 + Z.of_nat k) with (v0 + Z.of_nat k + 1) by lia.
           apply Permutation_cons_append.
      * intros Hv0. destruct (Hnone Hv0) as [Hcnt _]. congruence.
      * exists (evs ++ [ev])%list. unfold set_redis_data, log. cbn [trace].
        rewrite Htr, app_assoc, length_app, forallb_app, Hincr, Hfin. cbn.
        repeat split; lia.
    + assert (w' = log ev (shared s)
              ∧ ∃ o, ph' = Finished o ∧ value_of ph' = None)
        as (-> & o & -> & Hv).
      { destruct Hfail as [[e He]|He]; rewrite He in Hadv;
          injection Hadv as <- <-; eauto. }
      pose proof (returned_insert_same _ i (HasClient r) (Finished o)
                    Hi eq_refl Hv) as Hret.
      pose proof (finished_insert_S _ i (HasClient r) o Hi eq_refl) as Hfin.
      split; cbn [shared callers]; rewrite ?Hret; try done.
      * by rewrite length_insert.
      * exists (evs ++ [ev])%list. unfold log. cbn [trace].
        rewrite Htr, app_assoc, length_app, forallb_app, Hincr, Hfin. cbn.
        repeat split; lia.
Qed.

Lemma counts_inv_rtc (w0 : World) (N : nat) (s : system) :
  rtc step (System w0 (replicate N Start)) s → counts_inv w0 N s.
Proof.
  intros Hrun. pose proof (counts_inv_init w0 N) as Hinit.
  revert Hinit Hrun. generalize (System w0 (replicate N Start)).
  intros s0 Hinit Hrun. revert Hinit.
  induction Hrun as [|s1 s2 s3 Hstep _ IH]; [done|].
  intros Hinit. by eapply IH, counts_inv_step.
Qed.

Lemma live_inv_step (w0 : World) (p v0 : Z) (N : nat) (s s' : system) :
  int_of_str w0 (redis_port w0) = inr p →
  counter_value (redis_data w0) = Some v0 →
  v0 + Z.of_nat N ≤ int64_max →
  counts_inv w0 N s → live_inv w0 s → step s s' → live_inv w0 s'.
Proof.
  intros Hp Hv0 Hmax [Hlen Hsome _ _] [Henv Hint Hlink Hph] Hstep.
  destruct Hstep as [s i ph ph' w' Hi Hadv].
  destruct ph as [|r|o]; unfold advance in Hadv; [| |discriminate];
    injection Hadv as Hadv.
  - rewrite get_redis_eq in Hadv.
    assert (Hport : int_of_str (shared s) (redis_port (shared s)) = inr p)
      by (unfold redis_port; by rewrite Hint, Henv).
    rewrite Hport in Hadv. injection Hadv as <- <-.
    split; cbn [shared callers]; try done.
    apply Forall_insert; [done|]. discriminate.
  - destruct (Hsome v0 Hv0) as [Hcnt _].
    set (k := length (returned (callers s))) in *.
    assert (Hk : (k < N)%nat)
      by (rewrite <- Hlen; by eapply omap_length_lt).
    rewrite (counter_rest_succeeds r (shared s) (v0 + Z.of_nat k)) in Hadv
      by (done || lia).
    injection Hadv as <- <-.
    split; cbn [shared callers]; try done.
    apply Forall_insert; [done|]. intros _. by eexists.
Qed.

Lemma live_inv_rtc (w0 : World) (p v0 : Z) (N : nat) (s : system) :
  int_of_str w0 (redis_port w0) = inr p →
  redis_link w0 = Up →
  counter_value (redis_data w0) = Some v0 →
  v0 + Z.of_nat N ≤ int64_max →
  rtc step (System w0 (replicate N Start)) s → live_inv w0 s.
Proof.
  intros Hp Hup Hv0 Hmax Hrun.
  assert (Hinit : live_inv w0 (System w0 (replicate N Start))).
  { split; cbn [shared callers]; try done.
    apply Forall_replicate. discriminate. }
  pose proof (counts_inv_init w0 N) as Hcinit.
  revert Hinit Hcinit Hrun. generalize (System w0 (replicate N Start)).
  intros s0 Hinit Hcinit Hrun. revert Hinit Hcinit.
  induction Hrun as [|s1 s2 s3 Hstep _ IH]; [done|].
  intros Hinit Hcinit.
  apply IH; [by eapply live_inv_step | by eapply counts_inv_step].
Qed.

Lemma total_work_insert (l : list phase) (i : nat) (ph ph' : phase) :
  l !! i = Some ph →
  (total_work (<[i := ph']> l) + work ph = total_work l + work ph')%nat.
Proof.
  unfold total_work. revert i.
  induction l as [|a l IH]; intros [|i] Hl; try discriminate; csimpl in *.
  - injection Hl as ->. lia.
  - specialize (IH i Hl). lia.
Qed.

Lemma advance_work (ph ph' : phase) (w w' : World) :
  advance ph w = Some (ph', w') → (work ph' < work ph)%nat.
Proof.
  destruct ph as [|r|o]; unfold advance; [| |discriminate];
    intros H; injection H as H.
  - destruct (App.get_redis w); unfold settle in H; injection H as <- _;
      cbn; lia.
  - destruct (counter_rest r w); unfold settle in H; injection H as <- _;
      cbn; lia.
Qed.

Lemma step_total_work (s s' : system) :
  step s s' → (total_work (callers s') < total_work (callers s))%nat.
Proof.
  intros [s0 i ph ph' w' Hi Hadv]. cbn [callers].
  pose proof (total_work_insert (callers s0) i ph ph' Hi).
  pose proof (advance_work _ _ _ _ Hadv). lia.
Qed.

Lemma step_progress (s : system) :
  forallb is_finished (callers s) = false → ∃ s', step s s'.
Proof.
  intros Hnot.
  assert (∃ i ph, callers s !! i = Some ph ∧ is_finished ph = false)
    as (i & ph & Hi & Hph).
  { induction (callers s) as [|a l IH]; [discriminate|]. cbn in Hnot.
    destruct (is_finished a) eqn:Ha.
    - destruct (IH Hnot) as (i & ph & Hi & Hph). by exists (S i), ph.
    - by exists 0%nat, a. }
  destruct (advance ph (shared s)) as [[ph' w']|] eqn:Hadv.
  - eexists. econstructor; eassumption.
  - by destruct ph.
Qed.

Lemma run_to_completion (n : nat) (s : system) :
  (total_work (callers s) ≤ n)%nat →
  ∃ s', rtc step s s' ∧ forallb is_finished (callers s') = true.
Proof.
  revert s. induction n as [|n IH]; intros s Hn;
    destruct (forallb is_finished (callers s)) eqn:Hfin;
    try (by exists s).
  - destruct (step_progress s Hfin) as [s1 Hstep].
    apply step_total_work in Hstep. lia.
  - destruct (step_progress s Hfin) as [s1 Hstep].
    destruct (IH s1) as (s' & Hrun & Hdone).
    { apply step_total_work in Hstep. lia. }
    exists s'. split; [by eapply rtc_l|done].
Qed.

Lemma finished_have_values (l : list phase) :
  Forall (fun ph => is_finished ph = true → is_Some (value_of ph)) l →
  forallb is_finished l = true →
  Forall (fun ph => is_Some (value_of ph)) l.
Proof.
  induction 1 as [|ph l Hph _ IH]; cbn; [constructor|].
  intros [Hf Hl]%andb_true_iff. constructor; [by apply Hph | by apply IH].
Qed.

Lemma returned_NoDup (w0 : World) (N : nat) (s : system) :
  counts_inv w0 N s → NoDup (returned (callers s)).
Proof.
  intros [_ Hsome Hnone _].
  destruct (counter_value (redis_data w0)) as [v0|] eqn:Hv0.
  - destruct (Hsome v0 eq_refl) as [_ ->]. apply NoDup_seqZ.
  - destruct (Hnone eq_refl) as [_ ->]. constructor.
Qed.

(** C8: N callers run the counter handler at once, each [get_redis] and
    then the increment, their steps interleaved in any order over a store
    that carries out each command as one step.  In every run in which all N
    callers are answered with a count, the N counts are pairwise distinct
    and are exactly the N integers following the count the store held
    before (a missing key counting as 0), the store ends N above it, and
    the store has received exactly N requests, each a single INCR of
    'hits'.  When [int] accepts REDIS_PORT and the store is up with room
    for N increments below the 64-bit limit, a run that completes exists
    and every run that completes answers all N callers with a count. *)
Theorem concurrent_increments_distinct (w0 : World) (N : nat) :
  (∀ w, App.counter w = bind App.get_redis counter_rest w)
  ∧ (∀ s, rtc step (System w0 (replicate N Start)) s →
          Forall (fun ph => is_Some (value_of ph)) (callers s) →
       length (returned (callers s)) = N
       ∧ NoDup (returned (callers s))
       ∧ ((0 < N)%nat → is_Some (counter_value (redis_data w0)))
       ∧ (∀ v0, counter_value (redis_data w0) = Some v0 →
            returned (callers s) ≡ₚ seqZ (v0 + 1) (Z.of_nat N)
            ∧ (∀ n, n ∈ returned (callers s)
                    ↔ v0 + 1 ≤ n < v0 + 1 + Z.of_nat N)
            ∧ counter_value (redis_data (shared s)) = Some (v0 + Z.of_nat N))
       ∧ ∃ evs : list event,
           trace (shared s) = (trace w0 ++ evs)%list
           ∧ length evs = N
           ∧ forallb is_incr_hits evs = true)
  ∧ (∀ p v0, int_of_str w0 (redis_port w0) = inr p → redis_link w0 = Up →
             counter_value (redis_data w0) = Some v0 →
             v0 + Z.of_nat N ≤ int64_max →
       (∃ s, rtc step (System w0 (replicate N Start)) s
             ∧ forallb is_finished (callers s) = true)
       ∧ ∀ s, rtc step (System w0 (replicate N Start)) s →
              forallb is_finished (callers s) = true →
              Forall (fun ph => is_Some (value_of ph)) (callers s)).
Proof.
  split; [exact counter_phases|]. split.
  - intros s Hrun Hall.
    pose proof (counts_inv_rtc w0 N s Hrun) as Hinv.
    pose proof (returned_NoDup w0 N s Hinv) as Hnd.
    destruct Hinv as [Hlen Hsome Hnone (evs & Htr & Hincr & Hlo & Hhi)].
    assert (Hk : length (returned (callers s)) = N)
      by (rewrite <- Hlen; by apply omap_length_all).
    rewrite Hk in Hsome, Hlo.
    split; [done|]. split; [done|]. split; [|split].
    + intros HN. destruct (counter_value (redis_data w0)) eqn:Hv0; [done|].
      destruct (Hnone eq_refl) as [_ Hnil]. rewrite Hnil in Hk. cbn in Hk. lia.
    + intros v0 Hv0. destruct (Hsome v0 Hv0) as [Hcnt Hval].
      split; [done|]. split; [|done].
      intros n. rewrite Hval. apply elem_of_seqZ.
    + exists evs. split; [done|]. split; [|done].
      pose proof (omap_length_le finished_mark (callers s)). lia.
  - intros p v0 Hp Hup Hv0 Hmax. split; [by eapply run_to_completion|].
    intros s Hrun Hdone.
    destruct (live_inv_rtc w0 p v0 N s Hp Hup Hv0 Hmax Hrun) as [_ _ _ Hph].
    by apply finished_have_values.
Qed.

Lemma concurrent_increments_distinct_witness :
  int_of_str fresh_world (redis_port fresh_world) = inr 6379
  ∧ redis_link fresh_world = Up
  ∧ counter_value (redis_data fresh_world) = Some 0
  ∧ 0 + Z.of_nat 3 ≤ int64_max
  ∧ ∃ s, rtc step (System fresh_world (replicate 3 Start)) s
         ∧ Forall (fun ph => is_Some (value_of ph)) (callers s)
         ∧ returned (callers s) ≡ₚ seqZ (0 + 1) (Z.of_nat 3).
Proof.
  assert (H : 0 + Z.of_nat 3 ≤ int64_max) by (by vm_compute).
  split; [reflexivity|]. split; [reflexivity|]. split; [reflexivity|].
  split; [exact H|].
  destruct (proj2 (proj2 (concurrent_increments_distinct fresh_world 3))
              6379 0 eq_refl eq_refl eq_refl H) as [(s & Hrun & Hdone) Hall].
  exists s. split; [exact Hrun|]. split; [exact (Hall s Hrun Hdone)|].
  destruct (proj1 (proj2 (concurrent_increments_distinct fresh_world 3))
              s Hrun (Hall s Hrun Hdone)) as (_ & _ & _ & Hv & _).
  exact (proj1 (Hv 0 eq_refl)).
Defined.

(** ** Further properties of the handlers *)

(** X1: n GET /counter requests in a row, with a REDIS_PORT that [int]
    accepts and against a store that is up and holds the count v with room
    for n increments, answer v+1, v+2, ..., v+n in this order, leave v+n in
    the store and send it n requests. *)
Theorem counter_calls_consecutive (n : nat) (w : World) (p v : Z)
    (Hport : int_of_str w (redis_port w) = inr p)
    (Hup : redis_link w = Up)
    (Hv : counter_value (redis_data w) = Some v)
    (Hmax : v + Z.of_nat n ≤ int64_max) :
  fst (counter_calls n w) = visits <$> seqZ (v + 1) (Z.of_nat n)
  ∧ counter_value (redis_data (snd (counter_calls n w)))
    = Some (v + Z.of_nat n)
  ∧ length (trace (snd (counter_calls n w))) = (length (trace w) + n)%nat.
Proof.
  revert w v Hport Hup Hv Hmax.
  induction n as [|n IH]; intros w v Hport Hup Hv Hmax.
  - cbn. rewrite Z.add_0_r, Nat.add_0_r. by rewrite seqZ_nil.
  - assert (Hget : App.GET "/counter" w
                   = Return (visits (v + 1)) (after_incr w p v))
      by (apply GET_counter_return, counter_succeeds; (done || lia)).
    cbn [counter_calls]. rewrite Hget.
    destruct (IH (after_incr w p v) (v + 1)) as (IH1 & IH2 & IH3);
      [done | done | apply counter_value_after_incr | lia |].
    destruct (counter_calls n (after_incr w p v)) as [rs w2].
    cbn [fst snd] in *.
    rewrite seqZ_cons by lia. rewrite fmap_cons, IH1, IH2, IH3.
    replace (Z.succ (v + 1)) with (v + 1 + 1) by lia.
    replace (Z.pred (Z.of_nat (S n))) with (Z.of_nat n) by lia.
    rewrite after_incr_trace, length_app. cbn [length].
    repeat split; [f_equal; lia | lia].
Qed.

Lemma counter_calls_consecutive_witness :
  int_of_str fresh_world (redis_port fresh_world) = inr 6379
  ∧ redis_link fresh_world = Up
  ∧ counter_value (redis_data fresh_world) = Some 0
  ∧ 0 + Z.of_nat 5 ≤ int64_max
  ∧ fst (counter_calls 5 fresh_world) = visits <$> seqZ (0 + 1) (Z.of_nat 5).
Proof.
  assert (H : 0 + Z.of_nat 5 ≤ int64_max) by (by vm_compute).
  split; [reflexivity|]. split; [reflexivity|]. split; [reflexivity|].
  split; [exact H|].
  exact (proj1 (counter_calls_consecutive 5 fresh_world 6379 0
                  eq_refl eq_refl eq_refl H)).
Defined.



(** X3: whatever the outcome of a GET /counter request, every key of the
    store other than 'hits' holds what it held before. *)
Theorem counter_touches_only_hits (w : World) (key : string)
    (Hkey : key ≠ "hits") :
  redis_data (final_world (App.GET "/counter" w)) !! key
  = redis_data w !! key.
Proof.
  rewrite GET_counter_eq, counter_eq.
  destruct (int_of_str w (redis_port w)) as [e|p]; cbv zeta; [reflexivity|].
  destruct (redis_link w); try reflexivity.
  destruct (redis_data w !! "hits") as [[m| |]|]; try reflexivity.
  - destruct (m <? int64_max); [|reflexivity].
    cbn. by rewrite lookup_insert_ne.
  - cbn. by rewrite lookup_insert_ne.
Qed.

Lemma counter_touches_only_hits_witness :
  "sessions" ≠ "hits"
  ∧ redis_data (final_world (App.GET "/counter" fresh_world)) !! "sessions"
    = redis_data fresh_world !! "sessions".
Proof.
  assert (H : "sessions" ≠ "hits") by discriminate.
  split; [exact H|].
  exact (counter_touches_only_hits fresh_world "sessions" H).
Defined.

Lemma health_final_world (w : World) :
  ∃ evs : list event,
    final_world (App.health w) = extend evs w
    ∧ filter is_pg_event evs = db_events w
    ∧ forallb (fun ev => is_pg_event ev || is_ping ev) evs = true.
Proof.
  rewrite health_eq. unfold db_events, redis_events, redis_hangs.
  destruct (pg_link w); cbn [is_silent];
    destruct (int_of_str w (redis_port w)) as [e0|p];
    try destruct (is_silent (redis_link w));
    eexists; (split; [reflexivity|]); split; reflexivity.
Qed.

Lemma counter_extend (evs : list event) (w : World) :
  answer (App.GET "/counter" (extend evs w)) = answer (App.GET "/counter" w)
  ∧ redis_data (final_world (App.GET "/counter" (extend evs w)))
    = redis_data (final_world (App.GET "/counter" w)).
Proof.
  rewrite !GET_counter_eq, !counter_eq.
  change (redis_port (extend evs w)) with (redis_port w).
  change (int_of_str (extend evs w)) with (int_of_str w).
  change (redis_link (extend evs w)) with (redis_link w).
  change (redis_data (extend evs w)) with (redis_data w).
  destruct (int_of_str w (redis_port w)) as [e|p]; cbv zeta; [done|].
  destruct (redis_link w); try done.
  destruct (redis_data w !! "hits") as [[m| |]|]; try done.
  destruct (m <? int64_max); done.
Qed.

(** X4: a GET /health request never changes the contents of the store, and
    the only requests it sends are to the database and PINGs to the cache.
    Nothing is kept between requests: asked again, the health check sends
    the same requests again and gives the same report. *)
Theorem health_is_repeatable (w : World) :
  redis_data (final_world (App.GET "/health" w)) = redis_data w
  ∧ (∃ evs : list event,
        trace (final_world (App.GET "/health" w)) = (trace w ++ evs)%list
        ∧ forallb (fun ev => is_pg_event ev || is_ping ev) evs = true)
  ∧ (responsive w = true →
     ∃ r w1 w2 (evs : list event),
       App.GET "/health" w = Return r w1
       ∧ App.GET "/health" w1 = Return r w2
       ∧ evs ≠ []
       ∧ trace w1 = (trace w ++ evs)%list
       ∧ trace w2 = (trace w1 ++ evs)%list).
Proof.
  rewrite GET_health_eq.
  destruct (health_final_world w) as (evs & -> & _ & Hevs).
  split; [reflexivity|]. split; [by exists evs|].
  intros Hr. eexists _, _, _, (db_events w ++ redis_events w)%list.
  split; [by apply health_responsive|].
  split; [rewrite GET_health_eq; by apply (health_responsive (extend _ w))|].
  split; [|split; reflexivity].
  unfold db_events. by destruct (pg_link w).
Qed.

Lemma health_is_repeatable_witness :
  responsive cache_down_world = true
  ∧ ∃ r w1 w2,
      App.GET "/health" cache_down_world = Return r w1
      ∧ App.GET "/health" w1 = Return r w2.
Proof.
  split; [reflexivity|].
  destruct (proj2 (proj2 (health_is_repeatable cache_down_world)) eq_refl)
    as (r & w1 & w2 & evs & H1 & H2 & _).
  by exists r, w1, w2.
Defined.

(** X5: a GET /health request does not disturb the counter: the next
    GET /counter gives the answer, and leaves the store in the state, it
    would have given and left without the health request. *)
Theorem health_does_not_disturb_counter (w : World) (r : response)
    (w1 : World) (Hh : App.GET "/health" w = Return r w1) :
  answer (App.GET "/counter" w1) = answer (App.GET "/counter" w)
  ∧ redis_data (final_world (App.GET "/counter" w1))
    = redis_data (final_world (App.GET "/counter" w)).
Proof.
  rewrite GET_health_eq in Hh.
  destruct (health_final_world w) as (evs & Hw & _).
  rewrite Hh in Hw. cbn in Hw. subst w1. apply counter_extend.
Qed.

Lemma health_does_not_disturb_counter_witness :
  ∃ r w1,
    App.GET "/health" fresh_world = Return r w1
    ∧ answer (App.GET "/counter" w1) = answer (App.GET "/counter" fresh_world).
Proof.
  eexists _, _. split; [reflexivity|].
  exact (proj1 (health_does_not_disturb_counter fresh_world _ _ eq_refl)).
Defined.

(** X6: when [int] rejects REDIS_PORT, raising e, GET /counter answers 500
    with e and sends nothing, and GET /health sends no request to the
    cache; whenever the call to the database comes back, GET /health
    answers 200 and reports 'error: ' followed by the message of e as the
    state of the cache. *)
Theorem malformed_port_reported (w : World) (e : exn)
    (Hbad : int_of_str w (redis_port w) = inl e) :
  App.GET "/counter" w = Return (Response 500 (InternalServerError e)) w
  ∧ (∃ evs : list event,
        trace (final_world (App.GET "/health" w)) = (trace w ++ evs)%list
        ∧ forallb is_pg_event evs = true)
  ∧ (is_silent (pg_link w) = false →
     ∃ db_status w1,
       App.GET "/health" w
       = Return
           (Response 200
              (Json (health_body db_status ("error: " ++ exn_str e)))) w1).
Proof.
  split; [by rewrite GET_counter_eq, counter_eq, Hbad|].
  rewrite GET_health_eq, health_eq.
  unfold redis_hangs, redis_events, redis_failure. rewrite Hbad, app_nil_r.
  split.
  - exists (db_events w). split; [|apply db_events_pg].
    by destruct (is_silent (pg_link w)).
  - intros ->. by eexists _, _.
Qed.

Lemma malformed_port_reported_witness :
  int_of_str malformed_port_world (redis_port malformed_port_world)
  = inl (invalid_literal "63 79")
  ∧ App.GET "/counter" malformed_port_world
    = Return (Response 500 (InternalServerError (invalid_literal "63 79")))
             malformed_port_world.
Proof.
  split; [reflexivity|].
  exact (proj1 (malformed_port_reported malformed_port_world _ eq_refl)).
Defined.

(** X7: the health check closes the database connection it opened, also when
    closing raises or the cache probe then never returns, and it sends no
    close when the connection could not be opened: its requests to the
    database are one connect, followed by one close exactly when the connect
    succeeded. *)
Theorem health_closes_connection (w : World) :
  ∃ evs : list event,
    trace (final_world (App.health w)) = (trace w ++ evs)%list
    ∧ filter is_pg_event evs
      = match pg_link w with
        | Up => [EvPgConnect (db_kwargs w); EvPgClose]
        | _ => [EvPgConnect (db_kwargs w)]
        end.
Proof.
  destruct (health_final_world w) as (evs & -> & Hpg & _).
  exists evs. split; [reflexivity|exact Hpg].
Qed.

(** X8: the home view of the Django application never raises.  It has
    Django open the connection of the settings and runs SELECT 1 only when
    that succeeded, and it sends nothing to the cache.  Whenever the
    database call comes back it answers 200, with the database field
    'connected' exactly when the connection opened and SELECT 1 ran, and
    'error: ' followed by the exception's message otherwise. *)
Theorem django_home_probe (req : Urls.HttpRequest) (w : World) :
  (∀ e w', Urls.home req w ≠ Raise e w')
  ∧ (∃ db : gmap string pyval,
        Settings.DATABASES_default w = Return db w
        ∧ trace (final_world (Urls.home req w))
          = (trace w ++ EvDjangoConnect db
               :: match pg_link w with
                  | Up => [EvPgExecute "SELECT 1"]
                  | _ => []
                  end)%list)
  ∧ (is_silent (pg_link w) = false →
     ∃ db_status w',
       Urls.home req w
       = Return (Response 200 (Json (django_home_body w db_status))) w'
       ∧ reports (django_db_failure w) db_status
       ∧ (db_status = "connected"
          ↔ pg_link w = Up ∧ pg_query_error w = None)).
Proof.
  rewrite django_home_extend. split; [|split].
  - intros e w'. destruct (is_silent _); discriminate.
  - eexists. split; [reflexivity|].
    unfold django_events. by destruct (pg_link w).
  - intros Hs. rewrite Hs. eexists _, _. split; [reflexivity|].
    split; [apply status_text_reports|].
    unfold django_db_failure.
    destruct (pg_link w); [destruct (pg_query_error w)| |]; cbn in *;
      (split; [intros H | intros [H1 H2]]); try discriminate; done.
Qed.

Lemma django_home_probe_witness :
  is_silent (pg_link fresh_world) = false
  ∧ ∃ w', Urls.home (Urls.Request "GET" "/") fresh_world
          = Return (Response 200
                      (Json (django_home_body fresh_world "connected"))) w'.
Proof.
  split; [reflexivity|].
  destruct (proj2 (proj2 (django_home_probe (Urls.Request "GET" "/")
                            fresh_world)) eq_refl)
    as (s & w' & H & _ & Hc).
  exists w'. rewrite H. by rewrite (proj2 Hc).
Defined.

Lemma str_split_nonempty (sep : ascii) (s : string) : str_split sep s ≠ [].
Proof.
  destruct s as [|c s]; cbn; [done|].
  destruct (Ascii.eqb c sep); [done|]. by destruct (str_split sep s).
Qed.

Lemma concat_cons_char (sep : string) (c : ascii) (h : string)
    (t : list string) :
  String.concat sep (String c h :: t) = String c (String.concat sep (h :: t)).
Proof. by destruct t. Qed.

Lemma str_join_split (sep : ascii) (s : string) :
  str_join sep (str_split sep s) = s.
Proof.
  unfold str_join. induction s as [|c s IH]; [done|]. cbn [str_split].
  destruct (Ascii.eqb c sep) eqn:Hc.
  - apply Ascii.eqb_eq in Hc as ->.
    pose proof (str_split_nonempty sep s).
    destruct (str_split sep s) as [|h t] eqn:Hs; [done|].
    cbn [String.concat]. cbn. by rewrite <- IH.
  - pose proof (str_split_nonempty sep s).
    destruct (str_split sep s) as [|h t]; [done|].
    by rewrite concat_cons_char, IH.
Qed.

Lemma str_split_length (sep : ascii) (s : string) :
  length (str_split sep s) = S (str_count sep s).
Proof.
  induction s as [|c s IH]; [done|]. cbn [str_split str_count].
  pose proof (str_split_nonempty sep s).
  destruct (Ascii.eqb c sep); [cbn; by rewrite IH|].
  destruct (str_split sep s) as [|h t]; [done|]. exact IH.
Qed.

Lemma str_split_no_sep (sep : ascii) (s : string) :
  Forall (fun piece => str_count sep piece = 0%nat) (str_split sep s).
Proof.
  induction s as [|c s IH]; [by repeat constructor|]. cbn [str_split].
  destruct (Ascii.eqb c sep) eqn:Hc; [by constructor|].
  destruct (str_split sep s) as [|h t]; [repeat constructor; cbn; by rewrite Hc|].
  inversion IH as [|? ? Hh Ht]; subst. constructor; [|done].
  cbn. by rewrite Hc.
Qed.

(** X9: ALLOWED_HOSTS holds the pieces of DJANGO_ALLOWED_HOSTS (default
    'localhost') between its commas, as they are written: the list is never
    empty, it has one entry more than the text has commas, no entry
    contains a comma, and joining the entries with commas gives the text
    back. *)
Theorem allowed_hosts_pieces (w : World) :
  ∃ hosts,
    Settings.ALLOWED_HOSTS w = Return hosts w
    ∧ hosts ≠ []
    ∧ length hosts
      = S (str_count ","
             (default "localhost" (environ w !! "DJANGO_ALLOWED_HOSTS")))
    ∧ Forall (fun host => str_count "," host = 0%nat) hosts
    ∧ str_join "," hosts
      = default "localhost" (environ w !! "DJANGO_ALLOWED_HOSTS").
Proof.
  eexists. split; [reflexivity|].
  split; [apply str_split_nonempty|]. split; [apply str_split_length|].
  split; [apply str_split_no_sep | apply str_join_split].
Qed.

Lemma connection_request (w : World) :
  trace (final_world (App.get_db_connection w))
  = (trace w ++ [EvPgConnect (db_kwargs w)])%list.
Proof.
  rewrite get_db_connection_eq. unfold psycopg2_connect.
  by destruct (pg_link w).
Qed.

(** X10: the two applications share the variables DB_USER, DB_PASSWORD and
    DB_PORT: when these are set, the Flask application connects and the
    Django application is configured with the same user, password and port.
    Host and database name are not shared: DB_HOST and DB_NAME do not reach
    the Django settings, HOST and DB_DATABASE do not reach the connection
    of the Flask application. *)
Theorem database_variables_shared (w : World) (user password port : string)
    (Huser : environ w !! "DB_USER" = Some user)
    (Hpassword : environ w !! "DB_PASSWORD" = Some password)
    (Hport : environ w !! "DB_PORT" = Some port) :
  ∃ kw db,
    trace (final_world (App.get_db_connection w))
    = (trace w ++ [EvPgConnect kw])%list
    ∧ Settings.DATABASES_default w = Return db w
    ∧ kw !! "user" = Some (PyStr user) ∧ db !! "USER" = Some (PyStr user)
    ∧ kw !! "password" = Some (PyStr password)
    ∧ db !! "PASSWORD" = Some (PyStr password)
    ∧ kw !! "port" = Some (PyStr port) ∧ db !! "PORT" = Some (PyStr port)
    ∧ (∀ host name,
         answer (Settings.DATABASES_default
                   (with_environ (<["DB_HOST" := host]>
                                    (<["DB_NAME" := name]> (environ w))) w))
         = Some db)
    ∧ (∀ host name,
         trace (final_world
                  (App.get_db_connection
                     (with_environ (<["HOST" := host]>
                                      (<["DB_DATABASE" := name]> (environ w)))
                                   w)))
         = (trace w ++ [EvPgConnect kw])%list).
Proof.
  exists (db_kwargs w). eexists. split; [apply connection_request|].
  split; [reflexivity|].
  assert (Hkw : ∀ k d v, environ w !! k = Some v →
                         PyStr (default d (environ w !! k)) = PyStr v)
    by (by intros k d v ->).
  split; [exact (f_equal Some (Hkw _ "admin" _ Huser))|].
  split; [exact (f_equal Some (Hkw _ "postgres" _ Huser))|].
  split; [exact (f_equal Some (Hkw _ "secret123" _ Hpassword))|].
  split; [exact (f_equal Some (Hkw _ "postgres" _ Hpassword))|].
  split; [exact (f_equal Some (Hkw _ "5432" _ Hport))|].
  split; [exact (f_equal Some (Hkw _ "5432" _ Hport))|].
  split; intros host name.
  - unfold Settings.DATABASES_default, bind, os_getenv, ret, answer.
    cbn [environ with_environ]. by rewrite !lookup_insert_ne by done.
  - rewrite connection_request. unfold db_kwargs.
    cbn [environ with_environ trace]. by rewrite !lookup_insert_ne by done.
Qed.

Lemma database_variables_shared_witness :
  environ shared_vars_world !! "DB_USER" = Some "svc"
  ∧ environ shared_vars_world !! "DB_PASSWORD" = Some "pw"
  ∧ environ shared_vars_world !! "DB_PORT" = Some "6543"
  ∧ ∃ kw db : gmap string pyval,
      Settings.DATABASES_default shared_vars_world = Return db shared_vars_world
      ∧ kw !! "user" = Some (PyStr "svc") ∧ db !! "USER" = Some (PyStr "svc").
Proof.
  split; [reflexivity|]. split; [reflexivity|]. split; [reflexivity|].
  destruct (database_variables_shared shared_vars_world "svc" "pw" "6543"
              eq_refl eq_refl eq_refl)
    as (kw & db & _ & H1 & H2 & H3 & _).
  by exists kw, db.
Defined.


